(** * ServiceTitanClient: the credential cache and the request dispatcher

    A shallow embedding of [servicetitan_api_client/client.py] (and of the
    older top-level copy [client.py], which differs only in how a successful
    response body is turned into a Python value).

    Conventions of the embedding:
    - Python objects that travel through the client (decoded JSON, query
      parameter values, response payloads) are values of the type [value];
    - [str] is [string], read as the UTF-8 bytes of the text; the methods of
      [str] the client calls are written out on them.  [lower] changes the
      letters of ASCII and the one character outside ASCII whose lower-case
      form is an ASCII letter (the Kelvin sign), which is all that the
      comparisons of the client can tell apart; [upper] changes the letters
      of ASCII;
    - [float] time stamps and life times are rationals.  [float()] of an
      [int] too large for a double raises [OverflowError] as in the
      interpreter; the rounding of the sums and the special values of IEEE
      arithmetic are outside the model;
    - dictionaries are stdpp finite maps; a dictionary the caller passes in and
      the client writes to lives in a store and is passed by reference;
    - the interpreter's [str()] on objects that are not strings, the wall
      clock and the two servers form the environment [Env]; every method of
      the client is a computation reading the environment, threading the
      machine state [State] and ending in a value or in a raised exception. *)

From Stdlib Require Import ZArith QArith Ascii String List Bool Lia Lqa DecimalString.
From stdpp Require Import gmap strings list fin_maps list_numbers.

Import ListNotations.
Local Open Scope string_scope.
Local Open Scope Z_scope.

#[local] Set Warnings "-register-all".

(** ** Python values *)

Inductive value : Type :=
| VNone
| VBool (b : bool)
| VInt (n : Z)
| VFloat (q : Q)
| VStr (s : string)
| VBytes (b : list Byte.byte)
| VList (items : list value)
| VDict (fields : list (string * value)).

(** Truth value testing ([if x], [not x], [x or y]). *)
Definition truthy (v : value) : bool :=
  match v with
  | VNone => false
  | VBool b => b
  | VInt n => negb (n =? 0)
  | VFloat q => negb (Qeq_bool q 0)
  | VStr s => negb (String.eqb s "")
  | VBytes b => negb (Nat.eqb (List.length b) 0)
  | VList items => negb (Nat.eqb (List.length items) 0)
  | VDict fields => negb (Nat.eqb (List.length fields) 0)
  end.

(** [x or y] *)
Definition py_or (x y : value) : value := if truthy x then x else y.

(** [isinstance(x, dict)] *)
Definition is_dict (v : value) : bool :=
  match v with VDict _ => true | _ => false end.

(** [isinstance(x, (int, float))]: [bool] is a subclass of [int]. *)
Definition is_int_or_float (v : value) : bool :=
  match v with
  | VBool _ | VInt _ | VFloat _ => true
  | _ => false
  end.

(** The first integer that is too large for a double: [2^1024 - 2^970],
    half-way between the largest double and [2^1024].  [float(n)] raises
    [OverflowError] from there on, on both sides of zero. *)
Definition float_bound : Z := Eval vm_compute in 2 ^ 1024 - 2 ^ 970.

(** Lookup in a decoded JSON object. *)
Fixpoint fields_get (k : string) (fields : list (string * value)) : option value :=
  match fields with
  | [] => None
  | (k', v) :: rest => if String.eqb k k' then Some v else fields_get k rest
  end.

(** [d.get(k)] on a dictionary: [None] when the key is absent. *)
Definition dict_get (k : string) (fields : list (string * value)) : value :=
  match fields_get k fields with
  | Some v => v
  | None => VNone
  end.

(** The items [list.extend(x)] appends, [None] when [x] is not iterable. *)
Definition iter_items (v : value) : option (list value) :=
  match v with
  | VList items => Some items
  | VDict fields => Some (map (fun kv => VStr (fst kv)) fields)
  | VStr s => Some (map (fun c => VStr (String c EmptyString)) (list_ascii_of_string s))
  | VBytes b => Some (map (fun x => VInt (Z.of_N (Byte.to_N x))) b)
  | VNone | VBool _ | VInt _ | VFloat _ => None
  end.

(** ** The methods of [str] the client uses *)

Fixpoint startswith (p s : string) : bool :=
  match p, s with
  | EmptyString, _ => true
  | String a p', String b s' => Ascii.eqb a b && startswith p' s'
  | String _ _, EmptyString => false
  end.

Fixpoint drop_chars (n : nat) (s : string) : string :=
  match n, s with
  | O, _ => s
  | S n', String _ s' => drop_chars n' s'
  | S _, EmptyString => EmptyString
  end.

(** [s.lstrip(ch)] for a one-character set. *)
Fixpoint lstrip (ch : ascii) (s : string) : string :=
  match s with
  | String c s' => if Ascii.eqb c ch then lstrip ch s' else s
  | EmptyString => EmptyString
  end.

(** [s.rstrip(ch)] for a one-character set. *)
Fixpoint rstrip (ch : ascii) (s : string) : string :=
  match s with
  | String c s' =>
      match rstrip ch s' with
      | EmptyString => if Ascii.eqb c ch then EmptyString else String c EmptyString
      | r => String c r
      end
  | EmptyString => EmptyString
  end.

(** [s.replace(old, new, 1)]: only the leftmost occurrence is replaced. *)
Fixpoint replace_first (old new s : string) : string :=
  if startswith old s then new ++ drop_chars (String.length old) s
  else match s with
       | String c s' => String c (replace_first old new s')
       | EmptyString => EmptyString
       end.

Definition lower_ascii (c : ascii) : ascii :=
  let n := nat_of_ascii c in
  if (Nat.leb 65 n && Nat.leb n 90)%bool then ascii_of_nat (n + 32) else c.

Definition upper_ascii (c : ascii) : ascii :=
  let n := nat_of_ascii c in
  if (Nat.leb 97 n && Nat.leb n 122)%bool then ascii_of_nat (n - 32) else c.

(** The Kelvin sign U+212A, in UTF-8. *)
Definition kelvin : string := String "226" (String "132" (String "170" EmptyString)).

(** [s.lower()]: the letters of ASCII, and the Kelvin sign, whose lower-case
    form is the letter [k].  Other characters outside ASCII are left as they
    are; none of them has a lower-case form that is an ASCII letter, so that
    the client's comparisons of a lower-cased string with a name or a prefix
    in ASCII come out as in the interpreter. *)
Fixpoint lower (s : string) : string :=
  match s with
  | String c s' =>
      match s' with
      | String _ (String _ s'') =>
          if startswith kelvin s then String "k" (lower s'')
          else String (lower_ascii c) (lower s')
      | _ => String (lower_ascii c) (lower s')
      end
  | EmptyString => EmptyString
  end.

Fixpoint upper (s : string) : string :=
  match s with
  | String c s' => String (upper_ascii c) (upper s')
  | EmptyString => EmptyString
  end.

(** [sep.join(parts)] on strings. *)
Fixpoint join (sep : string) (parts : list string) : string :=
  match parts with
  | [] => EmptyString
  | [x] => x
  | x :: rest => x ++ sep ++ join sep rest
  end.

(** ** Exceptions, the environment and the machine state *)

(** The two exceptions of the package carry their message; the built-in ones
    are told apart by their class only. [JSONDecodeError] is the subclass of
    [ValueError] that [response.json()] raises. *)
Inductive exn : Type :=
| ServiceTitanAuthError (msg : string)
| ServiceTitanAPIError (msg : string)
| ValueError
| JSONDecodeError
| AttributeError
| TypeError
| OverflowError
| AssertionError.

Inductive result (A : Type) : Type :=
| Ok (a : A)
| Raise (e : exn).
Arguments Ok {A} a.
Arguments Raise {A} e.

(** [float(x)]: defined on the objects [is_int_or_float] lets through, the
    integers among them within the range of a double only. *)
Definition to_float (v : value) : result Q :=
  match v with
  | VBool true => Ok (1 # 1)%Q
  | VBool false => Ok (0 # 1)%Q
  | VInt n => if Z.abs n <? float_bound then Ok (inject_Z n) else Raise OverflowError
  | VFloat q => Ok q
  | _ => Raise TypeError
  end.

(** What [requests] hands back: the fields of a response the client reads.
    [json] is [response.json()], [None] standing for the [JSONDecodeError]
    it raises on a body that does not decode; [content_type] is
    [response.headers.get("Content-Type")]. *)
Record Response : Type := mkResponse {
  status_code : Z;
  content_type : option string;
  content : list Byte.byte;
  text : string;
  json : option value }.

(** [response.ok]: [raise_for_status] raises exactly on 400..599. *)
Definition ok (r : Response) : bool :=
  negb ((400 <=? status_code r) && (status_code r <? 600)).

(** A call into [requests] either yields a response or raises; [cause] is the
    text of the exception raised. *)
Inductive outcome : Type :=
| Responded (r : Response)
| TransportFailed (cause : string).

(** The arguments of [requests.post] in the token exchange. *)
Record TokenRequest : Type := mkTokenRequest {
  tr_url : string;
  tr_data : list (string * string);
  tr_headers : list (string * string) }.

(** The arguments of [requests.request]. *)
Record Request : Type := mkRequest {
  rq_method : string;
  rq_url : string;
  rq_params : option (gmap string value);
  rq_json : option value;
  rq_headers : gmap string string;
  rq_timeout : option Q }.

Record Env : Type := mkEnv {
  str_of : value -> string;                       (* [str(x)], [x] not a string *)
  time_time : nat -> Q;                           (* the k-th reading of the clock *)
  auth_server : nat -> TokenRequest -> outcome;   (* answer to the k-th exchange *)
  api_server : nat -> Request -> outcome }.       (* answer to the k-th API call *)

(** [str(x)], also what an f-string puts in place of [{x}]. *)
Definition py_str (env : Env) (v : value) : string :=
  match v with
  | VStr s => s
  | _ => str_of env v
  end.

Record State : Type := mkState {
  _access_token : value;                 (* [None] or the cached token *)
  _token_expiry : Q;                     (* epoch seconds *)
  clock_reads : nat;
  exchanges : list TokenRequest;         (* token exchanges performed, oldest first *)
  sent : list Request;                   (* API requests performed, oldest first *)
  store : list (gmap string value) }.    (* the dictionaries passed by reference *)

Definition with_access_token (v : value) (s : State) : State :=
  mkState v (_token_expiry s) (clock_reads s) (exchanges s) (sent s) (store s).
Definition with_token_expiry (q : Q) (s : State) : State :=
  mkState (_access_token s) q (clock_reads s) (exchanges s) (sent s) (store s).
Definition with_clock_reads (n : nat) (s : State) : State :=
  mkState (_access_token s) (_token_expiry s) n (exchanges s) (sent s) (store s).
Definition with_exchanges (l : list TokenRequest) (s : State) : State :=
  mkState (_access_token s) (_token_expiry s) (clock_reads s) l (sent s) (store s).
Definition with_sent (l : list Request) (s : State) : State :=
  mkState (_access_token s) (_token_expiry s) (clock_reads s) (exchanges s) l (store s).
Definition with_store (h : list (gmap string value)) (s : State) : State :=
  mkState (_access_token s) (_token_expiry s) (clock_reads s) (exchanges s) (sent s) h.

(** ** Computations *)

Definition M (A : Type) : Type := Env -> State -> result A * State.

Definition ret {A} (a : A) : M A := fun _ s => (Ok a, s).

Definition bind {A B} (c : M A) (k : A -> M B) : M B :=
  fun env s =>
    match c env s with
    | (Ok a, s') => k a env s'
    | (Raise e, s') => (Raise e, s')
    end.

Definition raise {A} (e : exn) : M A := fun _ s => (Raise e, s).

(** [try: c] with the outcome handed to the continuation ([except Exception]). *)
Definition attempt {A} (c : M A) : M (result A) :=
  fun env s => let (r, s') := c env s in (Ok r, s').

Definition gets {A} (f : State -> A) : M A := fun _ s => (Ok (f s), s).
Definition modify (f : State -> State) : M unit := fun _ s => (Ok tt, f s).
Definition ask : M Env := fun env s => (Ok env, s).

Notation "x <- c1 ;; c2" := (bind c1 (fun x => c2))
  (at level 100, c1 at next level, right associativity).
Notation "c1 ;;; c2" := (bind c1 (fun _ => c2))
  (at level 100, right associativity).

(** [time.time()] *)
Definition time : M Q :=
  fun env s => (Ok (time_time env (clock_reads s)), with_clock_reads (S (clock_reads s)) s).

(** [requests.post(url, data=..., headers=...)] *)
Definition requests_post (rq : TokenRequest) : M outcome :=
  fun env s =>
    (Ok (auth_server env (List.length (exchanges s)) rq), with_exchanges (exchanges s ++ [rq])%list s).

(** [requests.request(...)] *)
Definition requests_request (rq : Request) : M outcome :=
  fun env s =>
    (Ok (api_server env (List.length (sent s)) rq), with_sent (sent s ++ [rq])%list s).

(** A new dictionary object; the result is its reference. *)
Definition dict_new (d : gmap string value) : M nat :=
  fun _ s => (Ok (List.length (store s)), with_store (store s ++ [d])%list s).

(** The contents of the dictionary behind a reference. *)
Definition dict_read (r : nat) : M (gmap string value) :=
  gets (fun s => default ∅ (store s !! r)).

(** [d[k] = v] *)
Definition dict_setitem (r : nat) (k : string) (v : value) : M unit :=
  modify (fun s => with_store (alter (insert k v) r (store s)) s).

(** ** The client object *)

(** The attributes [__init__] sets and no method changes afterwards. *)
Record Config : Type := mkConfig {
  client_id : string;
  client_secret : string;
  app_key : string;
  app_guid : option string;
  tenant : option string;
  environment : string;
  auth_url : string;
  base_url : string;
  local_timezone : string }.

Definition _DEFAULT_AUTH_URLS (env_name : string) : string :=
  if String.eqb env_name "integration"
  then "https://auth-integration.servicetitan.io/connect/token"
  else "https://auth.servicetitan.io/connect/token".

Definition _DEFAULT_BASE_URLS (env_name : string) : string :=
  if String.eqb env_name "integration"
  then "https://api-integration.servicetitan.io"
  else "https://api.servicetitan.io".

(** Truth value of an [Optional[str]]. *)
Definition nonempty (o : option string) : bool :=
  match o with
  | Some s => negb (String.eqb s "")
  | None => false
  end.

(** [o or d] on an [Optional[str]]. *)
Definition or_default (o : option string) (d : string) : string :=
  match o with
  | Some s => if String.eqb s "" then d else s
  | None => d
  end.

Definition __init__ (client_id client_secret app_key : string)
    (app_guid tenant : option string) (environment : string)
    (auth_url base_url : option string) (local_timezone : string) : result Config :=
  if String.eqb client_id "" then Raise ValueError
  else if String.eqb client_secret "" then Raise ValueError
  else if String.eqb app_key "" then Raise ValueError
  else
    let environment := lower environment in
    if negb (String.eqb environment "integration" || String.eqb environment "production")
    then Raise ValueError
    else Ok (mkConfig client_id client_secret app_key app_guid tenant environment
               (or_default auth_url (_DEFAULT_AUTH_URLS environment))
               (or_default base_url (_DEFAULT_BASE_URLS environment))
               local_timezone).

(** The token cache of a client that has just been constructed, in a process
    that has not talked to anyone yet. *)
Definition fresh : State := mkState VNone (0 # 1)%Q 0%nat [] [] [].

(** ** Authentication *)

(** The error text of a failed call: [str(response.json())] when the body
    decodes, [response.text] otherwise. *)
Definition err_text (env : Env) (response : Response) : string :=
  match json response with
  | Some err_json => py_str env err_json
  | None => text response
  end.

(** [obj.get(k)]: only dictionaries have the method. *)
Definition method_get (obj : value) (k : string) : M value :=
  match obj with
  | VDict fields => ret (dict_get k fields)
  | _ => raise AttributeError
  end.

Definition _refresh_access_token (self : Config) : M unit :=
  let payload := [("grant_type", "client_credentials");
                  ("client_id", client_id self);
                  ("client_secret", client_secret self)] in
  let headers := [("Content-Type", "application/x-www-form-urlencoded")] in
  env <- ask ;;
  posted <- requests_post (mkTokenRequest (auth_url self) payload headers) ;;
  match posted with
  | TransportFailed exc =>
      raise (ServiceTitanAuthError ("Failed to connect to auth server: " ++ exc))
  | Responded response =>
      if negb (ok response) then
        raise (ServiceTitanAuthError
                 ("Authentication failed with status "
                    ++ py_str env (VInt (status_code response)) ++ ": "
                    ++ err_text env response))
      else
        match json response with
        | None => raise JSONDecodeError
        | Some token_info =>
            access_token <- method_get token_info "access_token" ;;
            if negb (truthy access_token) then
              raise (ServiceTitanAuthError
                       "Authentication response did not contain an access_token")
            else
              expires_in <- method_get token_info "expires_in" ;;
              let expires_in :=
                if negb (is_int_or_float expires_in) then VInt 900 else expires_in in
              modify (with_access_token access_token) ;;;
              now <- time ;;
              match to_float expires_in with
              | Ok seconds => modify (with_token_expiry (now + seconds)%Q)
              | Raise e => raise e
              end
        end
  end.

Definition _get_access_token (self : Config) : M value :=
  now <- time ;;
  token <- gets _access_token ;;
  expiry <- gets _token_expiry ;;
  (if negb (truthy token) || Qle_bool (expiry - (60 # 1))%Q now
   then _refresh_access_token self
   else ret tt) ;;;
  token <- gets _access_token ;;
  match token with
  | VNone => raise AssertionError
  | _ => ret token
  end.

(** ** HTTP request helpers *)

Definition _prepare_url (self : Config) (path : string) : string :=
  if startswith "http://" path || startswith "https://" path then path
  else
    let clean_path := lstrip "/" path in
    let clean_path :=
      if nonempty (tenant self) && startswith "tenant/" clean_path
      then replace_first "tenant/" ("tenant/" ++ default "" (tenant self) ++ "/") clean_path
      else clean_path in
    rstrip "/" (base_url self) ++ "/" ++ clean_path.

(** [key.lower() in {"authorization", "st-app-key"}] *)
Definition critical (key : string) : bool :=
  String.eqb (lower key) "authorization" || String.eqb (lower key) "st-app-key".

(** One round of the loop over [headers.items()]. *)
Definition add_header (key value : string) (req_headers : gmap string string)
  : gmap string string :=
  if critical key then req_headers else <[key := value]> req_headers.

(** The headers of the outgoing request. *)
Definition build_headers (env : Env) (self : Config) (token : value)
    (headers : option (gmap string string)) : gmap string string :=
  let req_headers : gmap string string :=
    <["ST-App-Key" := app_key self]> {["Authorization" := "Bearer " ++ py_str env token]} in
  match headers with
  | Some extra => map_fold add_header req_headers extra
  | None => req_headers
  end.

(** The dictionary [requests] sees when it is handed [params]. *)
Definition params_seen (params : option nat) : M (option (gmap string value)) :=
  match params with
  | Some r => d <- dict_read r ;; ret (Some d)
  | None => ret None
  end.

(** How a response below 400 becomes the value [_request] returns. *)
Definition payload (response : Response) : value :=
  let content_type := lower (default "" (content_type response)) in
  if startswith "application/json" content_type then
    match json response with
    | Some decoded => decoded
    | None => VStr (text response)
    end
  else if startswith "image/" content_type
          || startswith "application/octet-stream" content_type
  then VBytes (content response)
  else VStr (text response).

Definition _request (self : Config) (method path : string) (params : option nat)
    (body : option value) (headers : option (gmap string string))
    (timeout : option Q) : M value :=
  let url := _prepare_url self path in
  token <- _get_access_token self ;;
  env <- ask ;;
  let req_headers := build_headers env self token headers in
  query <- params_seen params ;;
  answered <- requests_request (mkRequest (upper method) url query body req_headers timeout) ;;
  match answered with
  | TransportFailed exc =>
      raise (ServiceTitanAPIError ("Failed to connect to " ++ url ++ ": " ++ exc))
  | Responded response =>
      if 400 <=? status_code response then
        raise (ServiceTitanAPIError
                 (py_str env (VInt (status_code response)) ++ " Error for " ++ url
                    ++ ": " ++ err_text env response))
      else ret (payload response)
  end.

(** The older copy of the module, [client.py] at the top level: the same
    client up to the last statement of [_request], which tries JSON on every
    body and does not look at the content type. *)
Module TopLevelCopy.

Definition payload (response : Response) : value :=
  match json response with
  | Some decoded => decoded
  | None => VStr (text response)
  end.

Definition _request (self : Config) (method path : string) (params : option nat)
    (body : option value) (headers : option (gmap string string))
    (timeout : option Q) : M value :=
  let url := _prepare_url self path in
  token <- _get_access_token self ;;
  env <- ask ;;
  let req_headers := build_headers env self token headers in
  query <- params_seen params ;;
  answered <- requests_request (mkRequest (upper method) url query body req_headers timeout) ;;
  match answered with
  | TransportFailed exc =>
      raise (ServiceTitanAPIError ("Failed to connect to " ++ url ++ ": " ++ exc))
  | Responded response =>
      if 400 <=? status_code response then
        raise (ServiceTitanAPIError
                 (py_str env (VInt (status_code response)) ++ " Error for " ++ url
                    ++ ": " ++ err_text env response))
      else ret (payload response)
  end.

End TopLevelCopy.

(** ** Public convenience methods *)

Definition get (self : Config) (path : string) (params : option nat)
    (headers : option (gmap string string)) (timeout : option Q) : M value :=
  _request self "GET" path params None headers timeout.

(** [if params:] on an [Optional[Dict]] held by reference. *)
Definition params_given (params : option nat) : M bool :=
  match params with
  | Some r => d <- dict_read r ;; ret (negb (Nat.eqb (size d) 0))
  | None => ret false
  end.

(** The [while True] loop of [get_all]; [fuel] bounds the number of rounds and
    the result is [None] when it runs out before the loop is left. *)
Fixpoint get_all_loop (fuel : nat) (self : Config) (path : string) (params : nat)
    (headers : option (gmap string string)) (timeout : option Q)
    (page : Z) (output : list value) : M (option (list value)) :=
  match fuel with
  | O => ret None
  | S fuel' =>
      dict_setitem params "page" (VInt page) ;;;
      got <- attempt (get self path (Some params) headers timeout) ;;
      match got with
      | Raise _ => ret (Some output)
      | Ok (VDict fields) =>
          let data := py_or (dict_get "data" fields) (VList []) in
          match iter_items data with
          | None => raise TypeError
          | Some items =>
              let output := (output ++ items)%list in
              let has_more := dict_get "hasMore" fields in
              if truthy has_more
              then get_all_loop fuel' self path params headers timeout (page + 1) output
              else ret (Some output)
          end
      | Ok _ => ret (Some output)
      end
  end.

Definition get_all (fuel : nat) (self : Config) (path : string) (params : option nat)
    (headers : option (gmap string string)) (timeout : option Q)
  : M (option (list value)) :=
  let page := 1 in
  given <- params_given params ;;
  params <- match params with
            | Some r =>
                if given then dict_setitem r "page" (VInt page) ;;; ret r
                else dict_new {["page" := VInt page]}
            | None => dict_new {["page" := VInt page]}
            end ;;
  get_all_loop fuel self path params headers timeout page [].

(** The strings of a list, [None] when some item is not a string. *)
Fixpoint as_strings (items : list value) : option (list string) :=
  match items with
  | [] => Some []
  | VStr s :: rest =>
      match as_strings rest with
      | Some l => Some (s :: l)
      | None => None
      end
  | _ :: _ => None
  end.

(** [sep.join(items)] *)
Definition str_join (sep : string) (items : list value) : M string :=
  match as_strings items with
  | Some parts => ret (join sep parts)
  | None => raise TypeError
  end.

(** [for i in range(...)] of [get_all_id_filter], [count] rounds from [i] on. *)
Fixpoint id_chunks_loop (count : nat) (i : nat) (self : Config) (path : string)
    (ids : list value) (params : nat) (headers : option (gmap string string))
    (timeout : option Q) (data : list value) : M (list value) :=
  match count with
  | O => ret data
  | S count' =>
      let tmp_ids := firstn 50 (skipn (50 * i) ids) in
      joined <- str_join "," tmp_ids ;;
      dict_setitem params "ids" (VStr joined) ;;;
      resp <- get self path (Some params) headers timeout ;;
      found <- method_get resp "data" ;;
      match iter_items found with
      | None => raise TypeError
      | Some items =>
          id_chunks_loop count' (S i) self path ids params headers timeout (data ++ items)%list
      end
  end.

Definition get_all_id_filter (self : Config) (path : string) (ids : list value)
    (id_filter_name : string) (params : option nat)
    (headers : option (gmap string string)) (timeout : option Q) : M value :=
  given <- params_given params ;;
  params <- match params with
            | Some r => if given then ret r else dict_new ∅
            | None => dict_new ∅
            end ;;
  let id_len := List.length ids in
  if Nat.ltb id_len 50 then
    joined <- str_join "," ids ;;
    dict_setitem params id_filter_name (VStr joined) ;;;
    resp <- get self path (Some params) headers timeout ;;
    found <- method_get resp "data" ;;
    ret (py_or found (VList []))
  else if Nat.eqb (id_len mod 50) 0 then
    data <- id_chunks_loop (id_len / 50) 0 self path ids params headers timeout [] ;;
    ret (VList data)
  else
    data <- id_chunks_loop (id_len / 50 + 1) 0 self path ids params headers timeout [] ;;
    ret (VList data).

(** ** The remaining public methods *)

Definition post (self : Config) (path : string) (body : option value) (params : option nat)
    (headers : option (gmap string string)) (timeout : option Q) : M value :=
  _request self "POST" path params body headers timeout.

Definition patch (self : Config) (path : string) (body : option value) (params : option nat)
    (headers : option (gmap string string)) (timeout : option Q) : M value :=
  _request self "PATCH" path params body headers timeout.

Definition put (self : Config) (path : string) (body : option value) (params : option nat)
    (headers : option (gmap string string)) (timeout : option Q) : M value :=
  _request self "PUT" path params body headers timeout.

Definition delete (self : Config) (path : string) (params : option nat)
    (headers : option (gmap string string)) (timeout : option Q) : M value :=
  _request self "DELETE" path params None headers timeout.

(** ** URL construction helpers *)




(** ** Vocabulary of the statements

    Names for the states and requests the methods pass through, and the two
    descriptions (of a failing token exchange, of a paginated fetch) that the
    theorems compare the code with. *)

(** The one request [_refresh_access_token] posts. *)
Definition token_request (self : Config) : TokenRequest :=
  mkTokenRequest (auth_url self)
    [("grant_type", "client_credentials");
     ("client_id", client_id self);
     ("client_secret", client_secret self)]
    [("Content-Type", "application/x-www-form-urlencoded")].

(** The state once that request has been posted. *)
Definition exchanged (self : Config) (s : State) : State :=
  with_exchanges (exchanges s ++ [token_request self])%list s.

(** The state once the clock has been read. *)
Definition ticked (s : State) : State := with_clock_reads (S (clock_reads s)) s.

(** The seconds [_refresh_access_token] adds to the clock for a given
    [expires_in] field, or the exception of [float()]. *)
Definition lifetime (expires_in : value) : result Q :=
  to_float (if negb (is_int_or_float expires_in) then VInt 900 else expires_in).

(** [assert token is not None; return token] *)
Definition asserted (token : value) : result value :=
  match token with
  | VNone => Raise AssertionError
  | _ => Ok token
  end.



(** Header names as the description compares them, without regard to the
    case of letters. *)

(** A letter of ASCII. *)
Definition is_letter (c : ascii) : bool :=
  let n := nat_of_ascii c in
  (Nat.leb 65 n && Nat.leb n 90) || (Nat.leb 97 n && Nat.leb n 122).

(** The same character up to case: the two cases of a letter are 32 apart. *)
Definition same_letter (a b : ascii) : bool :=
  Ascii.eqb a b
  || (is_letter a && is_letter b && Nat.eqb (nat_of_ascii a mod 32) (nat_of_ascii b mod 32)).

(** [key] is [name] up to the case of letters, character by character;
    where [name] has the letter K, [key] may also have the Kelvin sign, which
    is a capital K to Unicode. *)
Fixpoint same_name (name key : string) : bool :=
  match name, key with
  | EmptyString, EmptyString => true
  | String a name', String b key' =>
      same_letter a b && same_name name' key'
      || same_letter a "K" && startswith kelvin key && same_name name' (drop_chars 3 key)
  | _, _ => false
  end.

(** All characters are in ASCII. *)
Fixpoint is_ascii (s : string) : bool :=
  match s with
  | String c s' => Nat.ltb (nat_of_ascii c) 128 && is_ascii s'
  | EmptyString => true
  end.

(** [P] holds of each of the 256 characters. *)
Definition every_ascii (P : ascii -> bool) : bool :=
  List.forallb P (List.map ascii_of_nat (List.seq 0 256)).

(** A run of [n] slashes. *)
Fixpoint slashes (n : nat) : string :=
  match n with
  | O => EmptyString
  | S n' => String "/" (slashes n')
  end.

(** What [requests] is handed as [params]. *)
Definition query_of (params : option nat) (s : State) : option (gmap string value) :=
  match params with
  | Some r => Some (default ∅ (store s !! r))
  | None => None
  end.

(** The request [_request] builds once it holds [token]. *)
Definition outgoing (env : Env) (self : Config) (method path : string)
    (query : option (gmap string value)) (body : option value)
    (headers : option (gmap string string)) (timeout : option Q) (token : value) : Request :=
  mkRequest (upper method) (_prepare_url self path) query body
    (build_headers env self token headers) timeout.

(** The state once a request has gone out. *)
Definition dispatched (rq : Request) (s : State) : State :=
  with_sent (sent s ++ [rq])%list s.

(** What [_request] makes of the answer to the request for [url]. *)
Definition classified (env : Env) (url : string) (answer : outcome) : result value :=
  match answer with
  | TransportFailed exc =>
      Raise (ServiceTitanAPIError ("Failed to connect to " ++ url ++ ": " ++ exc))
  | Responded response =>
      if 400 <=? status_code response then
        Raise (ServiceTitanAPIError
                 (py_str env (VInt (status_code response)) ++ " Error for " ++ url
                    ++ ": " ++ err_text env response))
      else Ok (payload response)
  end.

(** The state after [d[k] = v] on the dictionary behind [r]. *)
Definition assigned (r : nat) (k : string) (v : value) (s : State) : State :=
  with_store (alter (insert k v) r (store s)) s.

(** [if params:] as a function of the state. *)
Definition given (params : option nat) (s : State) : bool :=
  match params with
  | Some r => negb (Nat.eqb (size (default ∅ (store s !! r))) 0)
  | None => false
  end.

(** The dictionary a helper works on and the state it starts from: the
    caller's own dictionary when [if params:] holds, else a new one holding
    [initial]. *)
Definition working_params (initial : gmap string value) (params : option nat) (s : State)
  : nat * State :=
  match params with
  | Some r =>
      if given params s then (r, s)
      else (List.length (store s), with_store (store s ++ [initial])%list s)
  | None => (List.length (store s), with_store (store s ++ [initial])%list s)
  end.

(** The dictionary and the state in which the loop of [get_all] starts. *)
Definition first_page (params : option nat) (s : State) : nat * State :=
  match params with
  | Some r =>
      if given params s then (r, assigned r "page" (VInt 1) s)
      else working_params {["page" := VInt 1]} params s
  | None => working_params {["page" := VInt 1]} params s
  end.

(** The items a page contributes: [resp.get("data") or []]. *)
Definition page_items (fields : list (string * value)) : option (list value) :=
  iter_items (py_or (dict_get "data" fields) (VList [])).

(** The paginated fetch in the words of its description: from [page] on, one
    GET per page with the [page] parameter set, the [data] of the pages in
    order; the last page asked for is the first one whose GET fails, whose
    answer is not an object, or which does not declare [hasMore].
    [paged ... page s out last s'] reads: started at [page] in state [s], the
    fetch collects [out], asks for [last] last and ends in [s']. *)
Inductive paged (env : Env) (self : Config) (path : string) (params : nat)
    (headers : option (gmap string string)) (timeout : option Q)
  : Z -> State -> list value -> Z -> State -> Prop :=
| paged_failed page s e s' :
    get self path (Some params) headers timeout env (assigned params "page" (VInt page) s)
      = (Raise e, s') ->
    paged env self path params headers timeout page s [] page s'
| paged_unstructured page s resp s' :
    get self path (Some params) headers timeout env (assigned params "page" (VInt page) s)
      = (Ok resp, s') ->
    is_dict resp = false ->
    paged env self path params headers timeout page s [] page s'
| paged_last page s fields items s' :
    get self path (Some params) headers timeout env (assigned params "page" (VInt page) s)
      = (Ok (VDict fields), s') ->
    page_items fields = Some items ->
    truthy (dict_get "hasMore" fields) = false ->
    paged env self path params headers timeout page s items page s'
| paged_more page s fields items s' rest last s'' :
    get self path (Some params) headers timeout env (assigned params "page" (VInt page) s)
      = (Ok (VDict fields), s') ->
    page_items fields = Some items ->
    truthy (dict_get "hasMore" fields) = true ->
    paged env self path params headers timeout (page + 1) s' rest last s'' ->
    paged env self path params headers timeout page s (items ++ rest)%list last s''.

(** The value of a query parameter of a request that went out. *)
Definition filter_of (name : string) (rq : Request) : option value :=
  rq_params rq ≫= (fun d => d !! name).

(** Method and page number of a request that went out. *)
Definition label (rq : Request) : string * option value :=
  (rq_method rq, filter_of "page" rq).

(** [resp.get("data") or []] on what [get] gave. *)
Definition data_or_empty (resp : result value * State) : result value * State :=
  match resp with
  | (Ok (VDict fields), s') => (Ok (py_or (dict_get "data" fields) (VList [])), s')
  | (Ok _, s') => (Raise AttributeError, s')
  | (Raise e, s') => (Raise e, s')
  end.

(** ** Sample clients and environments *)

(** [str()] on the simplest objects, enough for the sample runs. *)
Definition sample_str_of (v : value) : string :=
  match v with
  | VNone => "None"
  | VBool true => "True"
  | VBool false => "False"
  | VInt n => NilZero.string_of_int (Z.to_int n)
  | _ => "<object>"
  end.

Definition sample_self : Config :=
  mkConfig "abc123" "shhsecret" "myappkey" None (Some "123456") "integration"
    (_DEFAULT_AUTH_URLS "integration") (_DEFAULT_BASE_URLS "integration")
    "Australia/Sydney".

Definition json_reply (status : Z) (decoded : value) : outcome :=
  Responded (mkResponse status (Some "application/json; charset=utf-8") [] "" (Some decoded)).

Definition token_reply (token : string) (expires_in : value) : outcome :=
  json_reply 200 (VDict [("access_token", VStr token); ("expires_in", expires_in)]).

Definition page_reply (items : list value) (more : bool) : outcome :=
  json_reply 200 (VDict [("data", VList items); ("hasMore", VBool more)]).

(** A clock that advances one second per reading, starting at 1000. *)
Definition sample_clock (k : nat) : Q := inject_Z (1000 + Z.of_nat k).

(** An authorization server that grants 900 seconds and a collection of
    three pages. *)
Definition three_pages : Env :=
  mkEnv sample_str_of sample_clock
    (fun _ _ => token_reply "tok" (VInt 900))
    (fun k _ => match k with
                | O => page_reply [VInt 1; VInt 2] true
                | S O => page_reply [VInt 3] true
                | _ => page_reply [VInt 4; VInt 5] false
                end).

(** An API that answers its k-th call with [{"data": [k]}]. *)
Definition counting : Env :=
  mkEnv sample_str_of sample_clock
    (fun _ _ => token_reply "tok" (VInt 900))
    (fun k _ => json_reply 200 (VDict [("data", VList [VInt (Z.of_nat k)])])).

(** An API that does not know the resource. *)
Definition not_found : Env :=
  mkEnv sample_str_of sample_clock
    (fun _ _ => token_reply "tok" (VInt 900))
    (fun _ _ => Responded (mkResponse 404 (Some "text/plain") [] "no such job" None)).

(** An authorization server that sends [true] as the life time. *)
Definition boolean_lifetime : Env :=
  mkEnv sample_str_of (fun _ => inject_Z 1000)
    (fun _ _ => token_reply "tok" (VBool true))
    (fun _ _ => TransportFailed "unreachable").




(** A client holding a token that is good until 1900. *)
Definition warm : State := mkState (VStr "old") (1900 # 1)%Q 0%nat [] [] [].

(** The identifiers ["1"], ..., ["n"]. *)
Definition numbered (n : nat) : list value :=
  map (fun k => VStr (NilZero.string_of_uint (Nat.to_uint k))) (seq 1 n).

(** ["from,from+1,..."], [len] numerals. *)
Definition numerals (from len : nat) : string :=
  join "," (map (fun k => NilZero.string_of_uint (Nat.to_uint k)) (seq from len)).

(** ** Further vocabulary and samples *)

(** [ch in s] *)
Fixpoint contains (ch : ascii) (s : string) : bool :=
  match s with
  | String c s' => Ascii.eqb c ch || contains ch s'
  | EmptyString => false
  end.



(** The slice [l[50*i : 50*(i+1)]]. *)
Definition chunk {A} (i : nat) (l : list A) : list A := firstn 50 (skipn (50 * i) l).

(** The number of rounds [get_all_id_filter] makes for [n] identifiers,
    [n] at least 50. *)
Definition rounds (n : nat) : nat :=
  if Nat.eqb (n mod 50) 0 then (n / 50)%nat else (n / 50 + 1)%nat.

(** The numerals [from], [from + 1], ..., as strings. *)
Definition numeral_list (from len : nat) : list string :=
  map (fun k => NilZero.string_of_uint (Nat.to_uint k)) (seq from len).

(** An API that always declares [hasMore]. *)
Definition endless : Env :=
  mkEnv sample_str_of sample_clock
    (fun _ _ => token_reply "tok" (VInt 900))
    (fun k _ => page_reply [VInt (Z.of_nat k)] true).

(** An API that cannot be reached. *)
Definition unreachable_api : Env :=
  mkEnv sample_str_of sample_clock
    (fun _ _ => token_reply "tok" (VInt 900))
    (fun _ _ => TransportFailed "timed out").

(** An API whose objects carry no [data]. *)
Definition no_data : Env :=
  mkEnv sample_str_of sample_clock
    (fun _ _ => token_reply "tok" (VInt 900))
    (fun _ _ => json_reply 200 (VDict [("hasMore", VBool false)])).

(** An authorization server that grants 30 seconds. *)
Definition short_lived : Env :=
  mkEnv sample_str_of sample_clock
    (fun _ _ => token_reply "tok" (VInt 30))
    (fun _ _ => page_reply [] false).

(** An authorization server that sends an empty token. *)
Definition empty_token : Env :=
  mkEnv sample_str_of sample_clock
    (fun _ _ => token_reply "" (VInt 900))
    (fun _ _ => page_reply [] false).



(** [ST-App-Key] written with the Kelvin sign for its K. *)
Definition kelvin_key : string := "ST-App-" ++ kelvin ++ "ey".

(** The headers of a caller who tries to pass credentials of their own. *)
Definition forged_headers : gmap string string :=
  {["authorization" := "Bearer forged"; "ST-APP-KEY" := "forged";
    kelvin_key := "forged"; "X-Trace" := "on"]}.




(** * Theorems *)

(** ** The methods of [str] *)

Example lstrip_ex : lstrip "/" "//tenant/x" = "tenant/x".
Proof. reflexivity. Qed.

Example rstrip_ex : rstrip "/" "https://api/v2//" = "https://api/v2".
Proof. reflexivity. Qed.

Example replace_first_ex :
  replace_first "tenant/" "tenant/9/" "a/tenant/b/tenant/c" = "a/tenant/9/b/tenant/c".
Proof. reflexivity. Qed.

Example lower_ex : lower "AuThOrIzAtIoN" = "authorization".
Proof. reflexivity. Qed.

Example lower_kelvin_ex : lower kelvin_key = "st-app-key".
Proof. reflexivity. Qed.

Lemma startswith_cons (a b : ascii) (p s : string) :
  startswith (String a p) (String b s) = Ascii.eqb a b && startswith p s.
Proof. reflexivity. Qed.

Lemma kelvin_first (c : ascii) (s : string) :
  startswith kelvin (String c s) = true -> c = "226"%char.
Proof.
  unfold kelvin. rewrite startswith_cons. intros H.
  apply andb_true_iff in H as [E _]. apply Ascii.eqb_eq in E. now subst c.
Qed.

(** [lower], character by character. *)
Lemma lower_step (c : ascii) (s : string) :
  lower (String c s)
  = if startswith kelvin (String c s) then String "k" (lower (drop_chars 2 s))
    else String (lower_ascii c) (lower s).
Proof.
  destruct s as [|c1 [|c2 s]].
  - unfold kelvin. rewrite startswith_cons. cbn [startswith]. now rewrite andb_false_r.
  - unfold kelvin. rewrite !startswith_cons. cbn [startswith]. now rewrite !andb_false_r.
  - reflexivity.
Qed.

Lemma every_ascii_spec (P : ascii -> bool) : every_ascii P = true -> forall c, P c = true.
Proof.
  unfold every_ascii. intros H c. rewrite List.forallb_forall in H. apply H.
  rewrite <- (ascii_nat_embedding c). apply List.in_map, List.in_seq.
  pose proof (nat_ascii_bounded c). lia.
Qed.

(** Two characters have the same lower-case form exactly when they are the
    same up to case. *)
Lemma lower_letter (a b : ascii) :
  Nat.ltb (nat_of_ascii a) 128 = true ->
  Ascii.eqb (lower_ascii b) (lower_ascii a) = same_letter a b.
Proof.
  assert (H : every_ascii (fun a => every_ascii (fun b =>
             implb (Nat.ltb (nat_of_ascii a) 128)
               (Bool.eqb (Ascii.eqb (lower_ascii b) (lower_ascii a)) (same_letter a b)))) = true)
    by (vm_compute; reflexivity).
  intros Ha.
  pose proof (every_ascii_spec _ (every_ascii_spec _ H a) b) as Hab. cbv beta in Hab.
  rewrite Ha in Hab. now apply Bool.eqb_prop.
Qed.

(** The lower-case form is [k] for the two cases of that letter, and no
    character of ASCII is the first byte of the Kelvin sign. *)
Lemma lower_kelvin (a : ascii) :
  Nat.ltb (nat_of_ascii a) 128 = true ->
  Ascii.eqb "k" (lower_ascii a) = same_letter a "K" /\ same_letter a "226" = false.
Proof.
  assert (H : every_ascii (fun a =>
             implb (Nat.ltb (nat_of_ascii a) 128)
               (Bool.eqb (Ascii.eqb "k" (lower_ascii a)) (same_letter a "K")
                && negb (same_letter a "226"))) = true)
    by (vm_compute; reflexivity).
  intros Ha. pose proof (every_ascii_spec _ H a) as Hk. cbv beta in Hk.
  rewrite Ha in Hk. apply andb_true_iff in Hk as [H1 H2].
  split; [now apply Bool.eqb_prop | now apply negb_true_iff].
Qed.

(** Comparing lower-case forms is comparing up to case. *)
Lemma same_name_lower (name : string) :
  is_ascii name = true ->
  forall key, String.eqb (lower key) (lower name) = same_name name key.
Proof.
  induction name as [|a name IH]; intros Hname key.
  - destruct key as [|b key]; [reflexivity|]. rewrite lower_step.
    now destruct (startswith kelvin _).
  - cbn [is_ascii] in Hname. apply andb_true_iff in Hname as [Ha Hname].
    specialize (IH Hname).
    assert (Hlow : lower (String a name) = String (lower_ascii a) (lower name)).
    { rewrite lower_step.
      destruct (startswith kelvin (String a name)) eqn:E; [|reflexivity].
      apply kelvin_first in E. subst a. discriminate. }
    rewrite Hlow. destruct key as [|b key]; [reflexivity|].
    rewrite lower_step. cbn [same_name].
    destruct (lower_kelvin a Ha) as [Hk Hnot].
    destruct (startswith kelvin (String b key)) eqn:Hkel.
    + assert (b = "226"%char) as -> by exact (kelvin_first _ _ Hkel).
      rewrite Hnot. cbn [andb orb String.eqb drop_chars].
      rewrite Hk, andb_true_r. now rewrite IH.
    + rewrite andb_false_r. cbn [andb orb String.eqb]. rewrite orb_false_r.
      rewrite lower_letter by exact Ha. now rewrite IH.
Qed.

(** [float()] accepts the integers up to the half-way point between the
    largest double and [2^1024], and none from there on. *)
Example float_bound_ex :
  float_bound = 2 ^ 1024 - 2 ^ 970
  /\ to_float (VInt (float_bound - 1)) = Ok (inject_Z (float_bound - 1))
  /\ to_float (VInt float_bound) = Raise OverflowError
  /\ to_float (VInt (- float_bound)) = Raise OverflowError.
Proof. vm_compute. repeat split. Qed.

Lemma append_assoc (a b c : string) : (a ++ b) ++ c = a ++ (b ++ c).
Proof.
  induction a as [|x a IH]; [reflexivity|].
  change (String x ((a ++ b) ++ c) = String x (a ++ (b ++ c))). now rewrite IH.
Qed.

Lemma startswith_app (p rest : string) : startswith p (p ++ rest) = true.
Proof.
  induction p as [|c p IH]; [reflexivity|].
  change (Ascii.eqb c c && startswith p (p ++ rest) = true).
  now rewrite Ascii.eqb_refl, IH.
Qed.

Lemma drop_chars_app (p rest : string) : drop_chars (String.length p) (p ++ rest) = rest.
Proof. induction p as [|c p IH]; [reflexivity|]. exact IH. Qed.

(** Stripping removes a run of slashes and nothing else. *)
Lemma lstrip_slashes (path : string) : exists n, path = slashes n ++ lstrip "/" path.
Proof.
  induction path as [|c path [n IH]].
  - now exists 0%nat.
  - cbn [lstrip]. destruct (Ascii.eqb c "/") eqn:E.
    + apply Ascii.eqb_eq in E. subst c. exists (S n).
      change (String "/" path = String "/" (slashes n ++ lstrip "/" path)).
      now f_equal.
    + now exists 0%nat.
Qed.

Lemma lstrip_clean (path : string) : startswith "/" (lstrip "/" path) = false.
Proof.
  induction path as [|c path IH]; [reflexivity|].
  cbn [lstrip]. destruct (Ascii.eqb c "/") eqn:E; [exact IH|].
  change (Ascii.eqb "/" c && true = false). now rewrite Ascii.eqb_sym, E.
Qed.

(** The leftmost occurrence of a prefix is the prefix. *)
Lemma replace_first_prefix (old new rest : string) :
  replace_first old new (old ++ rest) = new ++ rest.
Proof.
  destruct (old ++ rest) eqn:E; cbn [replace_first]; rewrite <- E;
    now rewrite startswith_app, drop_chars_app.
Qed.

(** ** Construction *)

Example init_sample :
  __init__ "abc123" "shhsecret" "myappkey" None (Some "123456") "Integration" None None
    "Australia/Sydney" = Ok sample_self
  /\ __init__ "abc123" "" "myappkey" None None "integration" None None
       "Australia/Sydney" = Raise ValueError
  /\ __init__ "abc123" "shhsecret" "myappkey" None None "staging" None None
       "Australia/Sydney" = Raise ValueError.
Proof. repeat split. Qed.

(** ** The token exchange *)

Section TokenExchange.

Context (env : Env) (self : Config).

(** The life time, field by field. *)
Lemma lifetime_cases (expires_in : value) :
  lifetime expires_in =
  match expires_in with
  | VInt n => if Z.abs n <? float_bound then Ok (inject_Z n) else Raise OverflowError
  | VFloat q => Ok q
  | VBool b => Ok (if b then 1 # 1 else 0 # 1)%Q
  | _ => Ok (900 # 1)%Q
  end.
Proof. destruct expires_in as [|[]| | | | | |]; reflexivity. Qed.


(** [_refresh_access_token], path by path. *)
Lemma refresh_run (s : State) :
  _refresh_access_token self env s =
  match auth_server env (List.length (exchanges s)) (token_request self) with
  | TransportFailed exc =>
      (Raise (ServiceTitanAuthError ("Failed to connect to auth server: " ++ exc)),
       exchanged self s)
  | Responded response =>
      if ok response then
        match json response with
        | None => (Raise JSONDecodeError, exchanged self s)
        | Some (VDict fields) =>
            if truthy (dict_get "access_token" fields) then
              match lifetime (dict_get "expires_in" fields) with
              | Ok seconds =>
                  (Ok tt,
                   with_token_expiry (time_time env (clock_reads s) + seconds)%Q
                     (with_clock_reads (S (clock_reads s))
                        (with_access_token (dict_get "access_token" fields)
                           (exchanged self s))))
              | Raise e =>
                  (Raise e,
                   with_clock_reads (S (clock_reads s))
                     (with_access_token (dict_get "access_token" fields) (exchanged self s)))
              end
            else
              (Raise (ServiceTitanAuthError
                        "Authentication response did not contain an access_token"),
               exchanged self s)
        | Some _ => (Raise AttributeError, exchanged self s)
        end
      else
        (Raise (ServiceTitanAuthError
                  ("Authentication failed with status "
                     ++ py_str env (VInt (status_code response)) ++ ": "
                     ++ err_text env response)),
         exchanged self s)
  end.
Proof.
  unfold _refresh_access_token, bind, ask, requests_post. cbn.
  fold (token_request self). fold (exchanged self s).
  destruct (auth_server env _ _) as [response|exc]; [|reflexivity].
  destruct (ok response); cbn; [|reflexivity].
  destruct (json response) as [[| | | | | | |fields]|]; try reflexivity.
  cbn. destruct (truthy (dict_get "access_token" fields)); cbn; [|reflexivity].
  unfold lifetime.
  destruct (to_float _) as [seconds|e]; reflexivity.
Qed.

(** Case analysis along the paths of [refresh_run]. *)
Ltac exchange_cases :=
  rewrite refresh_run;
  destruct (auth_server env _ _) as [?response|?exc];
  [ destruct (ok _) eqn:?;
    [ destruct (json _) as [[| | | | | | |?fields]|];
      try (destruct (truthy (dict_get "access_token" _)) eqn:?;
           [destruct (lifetime _) as [?seconds|?e] eqn:?|]) | ] | ];
  try reflexivity.

(** Every call posts exactly one exchange. *)
Lemma refresh_exchanges (s : State) :
  exchanges (snd (_refresh_access_token self env s))
  = (exchanges s ++ [token_request self])%list.
Proof. exchange_cases. Qed.

(** It touches neither the API log nor the dictionaries. *)
Lemma refresh_frame (s : State) :
  sent (snd (_refresh_access_token self env s)) = sent s
  /\ store (snd (_refresh_access_token self env s)) = store s.
Proof. split; exchange_cases. Qed.

(** A refresh that returns leaves a token that passes [if token]. *)
Lemma refresh_ok_truthy (s : State) (u : unit) (s2 : State) :
  _refresh_access_token self env s = (Ok u, s2) -> truthy (_access_token s2) = true.
Proof.
  exchange_cases; try discriminate.
  intros H. injection H as _ <-. assumption.
Qed.




(** A successful exchange stores the token of the answer and an expiry of
    the clock plus the life time, which is the [expires_in] field when it is
    an [int] (within the range of a double) or a [float], 0 or 1 when it is
    a [bool], and 900 otherwise. *)
Lemma refresh_success (s : State) (response : Response) (fields : list (string * value))
    (seconds : Q) :
  auth_server env (List.length (exchanges s)) (token_request self) = Responded response ->
  ok response = true ->
  json response = Some (VDict fields) ->
  truthy (dict_get "access_token" fields) = true ->
  lifetime (dict_get "expires_in" fields) = Ok seconds ->
  exists s',
    _refresh_access_token self env s = (Ok tt, s')
    /\ _access_token s' = dict_get "access_token" fields
    /\ _token_expiry s' = (time_time env (clock_reads s) + seconds)%Q
    /\ match fields_get "expires_in" fields with
       | Some (VInt n) => seconds = inject_Z n /\ Z.abs n < float_bound
       | Some (VFloat q) => seconds = q
       | Some (VBool b) => seconds = (if b then 1 # 1 else 0 # 1)%Q
       | _ => seconds = (900 # 1)%Q
       end.
Proof.
  intros Hreply Hok Hjson Htok Hlife. rewrite refresh_run, Hreply, Hok, Hjson, Htok, Hlife.
  eexists. split; [reflexivity|]. split; [reflexivity|]. split; [reflexivity|].
  revert Hlife. rewrite lifetime_cases. unfold dict_get.
  destruct (fields_get "expires_in" fields) as [[|b|n| | | | |]|]; try now intros [= <-].
  destruct (Z.abs n <? float_bound) eqn:E; [|discriminate].
  intros [= <-]. split; [reflexivity|]. now apply Z.ltb_lt.
Qed.

End TokenExchange.

Arguments _refresh_access_token : simpl never.

(** ** The access guard *)

Section AccessGuard.

Context (env : Env) (self : Config).

(** [_get_access_token], branch by branch. *)
Lemma guard_run (s : State) :
  _get_access_token self env s =
  if negb (truthy (_access_token s))
     || Qle_bool (_token_expiry s - (60 # 1))%Q (time_time env (clock_reads s))
  then
    match _refresh_access_token self env (ticked s) with
    | (Ok _, s2) => (asserted (_access_token s2), s2)
    | (Raise e, s2) => (Raise e, s2)
    end
  else (asserted (_access_token s), ticked s).
Proof.
  unfold _get_access_token, bind, time, gets. cbn.
  fold (ticked s).
  destruct (negb (truthy (_access_token s)) || Qle_bool _ _).
  - destruct (_refresh_access_token self env (ticked s)) as [[u|e] s2]; [|reflexivity].
    unfold asserted. destruct (_access_token s2); reflexivity.
  - unfold ret, asserted. cbn. destruct (_access_token s); reflexivity.
Qed.

Lemma truthy_asserted (token : value) : truthy token = true -> asserted token = Ok token.
Proof. destruct token; cbn; intros H; try reflexivity; discriminate. Qed.

(** A usable token is returned as it is; only the clock has been read. *)
Lemma guard_hit (s : State) :
  truthy (_access_token s) = true ->
  (time_time env (clock_reads s) < _token_expiry s - (60 # 1))%Q ->
  _get_access_token self env s = (Ok (_access_token s), ticked s).
Proof.
  intros Htok Hlt. rewrite guard_run, Htok. cbn.
  destruct (Qle_bool _ _) eqn:E.
  - apply Qle_bool_iff in E. exfalso. exact (Qlt_not_le _ _ Hlt E).
  - now rewrite truthy_asserted.
Qed.

(** Otherwise the guard is one refresh followed by a read of the cache. *)
Lemma guard_miss (s : State) :
  truthy (_access_token s) = false
  \/ (_token_expiry s - (60 # 1) <= time_time env (clock_reads s))%Q ->
  _get_access_token self env s =
  (match fst (_refresh_access_token self env (ticked s)) with
   | Ok _ => Ok (_access_token (snd (_refresh_access_token self env (ticked s))))
   | Raise e => Raise e
   end, snd (_refresh_access_token self env (ticked s))).
Proof.
  intros H. rewrite guard_run.
  assert (negb (truthy (_access_token s))
          || Qle_bool (_token_expiry s - (60 # 1))%Q (time_time env (clock_reads s)) = true)
    as ->.
  { destruct H as [->|H]; [reflexivity|].
    apply Qle_bool_iff in H. rewrite H. apply orb_true_r. }
  destruct (_refresh_access_token self env (ticked s)) as [[u|e] s2] eqn:E; [|reflexivity].
  cbn. now rewrite (truthy_asserted _ (refresh_ok_truthy _ _ _ _ _ E)).
Qed.

Lemma guard_frame (s : State) :
  sent (snd (_get_access_token self env s)) = sent s
  /\ store (snd (_get_access_token self env s)) = store s.
Proof.
  rewrite guard_run.
  destruct (_ || _); [|split; reflexivity].
  pose proof (refresh_frame env self (ticked s)) as H.
  destruct (_refresh_access_token self env (ticked s)) as [[u|e] s2]; exact H.
Qed.

End AccessGuard.

Arguments _get_access_token : simpl never.

(** ** URL preparation *)

(** C4. A path that starts with [http://] or [https://] is the URL, whatever
    the tenant.  Any other path is a run of slashes followed by a rest that
    does not start with a slash; the URL is the base URL (without trailing
    slashes), a slash and that rest, in which -- when the client has a
    non-empty tenant and the rest starts with [tenant/] -- the tenant and a
    slash are put right after that segment.  In particular tenant [123456]
    turns [tenant/employees] into [tenant/123456/employees]. *)
Theorem prepare_url_resolves (self : Config) :
  (forall path,
      startswith "http://" path = true \/ startswith "https://" path = true ->
      _prepare_url self path = path)
  /\ (forall path,
        startswith "http://" path = false -> startswith "https://" path = false ->
        exists (n : nat) (clean : string),
          path = slashes n ++ clean /\ startswith "/" clean = false
          /\ (forall t rest,
                tenant self = Some t -> t <> "" -> clean = "tenant/" ++ rest ->
                _prepare_url self path
                = rstrip "/" (base_url self) ++ "/" ++ "tenant/" ++ t ++ "/" ++ rest)
          /\ (nonempty (tenant self) = false \/ startswith "tenant/" clean = false ->
                _prepare_url self path = rstrip "/" (base_url self) ++ "/" ++ clean))
  /\ (tenant self = Some "123456" ->
      _prepare_url self "tenant/employees"
      = rstrip "/" (base_url self) ++ "/" ++ "tenant/123456/employees")
  /\ _prepare_url self "https://x/y" = "https://x/y".
Proof.
  unfold _prepare_url. repeat split.
  - intros path [-> | ->]; [reflexivity | now rewrite orb_true_r].
  - intros path -> ->. cbn [orb].
    destruct (lstrip_slashes path) as [n Hn].
    exists n, (lstrip "/" path). split; [exact Hn|]. split; [apply lstrip_clean|]. split.
    + intros t rest Ht Hne Hclean. rewrite Ht, Hclean. cbn [nonempty from_option].
      assert (String.eqb t "" = false) as -> by now apply String.eqb_neq.
      cbn [negb andb]. rewrite startswith_app, replace_first_prefix.
      now rewrite !append_assoc.
    + intros [-> | ->]; [reflexivity | now rewrite andb_false_r].
  - intros ->. reflexivity.
Qed.

Arguments _prepare_url : simpl never.

(** ** The dispatcher *)

(** [_request]: the guard, then one request, then the classification of the
    answer. *)
Lemma request_run env self method path params body headers timeout s :
  _request self method path params body headers timeout env s =
  match _get_access_token self env s with
  | (Ok token, s1) =>
      let rq := outgoing env self method path (query_of params s1) body headers timeout token in
      (classified env (_prepare_url self path) (api_server env (List.length (sent s1)) rq),
       dispatched rq s1)
  | (Raise e, s1) => (Raise e, s1)
  end.
Proof.
  unfold _request, bind.
  destruct (_get_access_token self env s) as [[token|e] s1]; [|reflexivity].
  unfold ask, params_seen. destruct params as [r|].
  - unfold bind, dict_read, gets, ret, requests_request. cbn -[upper].
    fold (outgoing env self method path (Some (default ∅ (store s1 !! r))) body headers
            timeout token).
    set (rq := outgoing _ _ _ _ _ _ _ _ _).
    fold (dispatched rq s1).
    destruct (api_server env _ rq) as [response|exc]; [|reflexivity].
    cbn. destruct (400 <=? status_code response); reflexivity.
  - unfold ret, requests_request. cbn -[upper].
    fold (outgoing env self method path None body headers timeout token).
    set (rq := outgoing _ _ _ _ _ _ _ _ _).
    fold (dispatched rq s1).
    destruct (api_server env _ rq) as [response|exc]; [|reflexivity].
    cbn. destruct (400 <=? status_code response); reflexivity.
Qed.


Arguments build_headers : simpl never.
Arguments payload : simpl never.

(** A request exchanges tokens exactly when its guard does, and writes to no
    dictionary. *)
Lemma request_exchanges env self method path params body headers timeout s :
  exchanges (snd (_request self method path params body headers timeout env s))
  = exchanges (snd (_get_access_token self env s)).
Proof.
  rewrite request_run.
  destruct (_get_access_token self env s) as [[token|e] s1]; reflexivity.
Qed.

Lemma request_store env self method path params body headers timeout s :
  store (snd (_request self method path params body headers timeout env s)) = store s.
Proof.
  rewrite request_run. pose proof (guard_frame env self s) as [_ H].
  destruct (_get_access_token self env s) as [[token|e] s1]; exact H.
Qed.

(** C1. In every state of the client, with [now] the reading of the clock:
    when a token is cached and [now < expiry - 60], [_get_access_token]
    returns the cached token, the state changes by the clock reading only and
    no exchange takes place; when no token is cached or [now >= expiry - 60],
    it is one call of [_refresh_access_token] (one exchange) followed by the
    return of the token then cached, or the exception of the refresh.  Hence
    the first request of a client without a token makes exactly one exchange,
    and a request made while [now < expiry - 60] makes none. *)
Theorem get_access_token_lazy (env : Env) (self : Config) (s : State) :
  let now := time_time env (clock_reads s) in
  let refreshed := _refresh_access_token self env (ticked s) in
  (truthy (_access_token s) = true -> (now < _token_expiry s - (60 # 1))%Q ->
     _get_access_token self env s = (Ok (_access_token s), ticked s)
     /\ exchanges (ticked s) = exchanges s)
  /\ (truthy (_access_token s) = false \/ (_token_expiry s - (60 # 1) <= now)%Q ->
     _get_access_token self env s =
       (match fst refreshed with
        | Ok _ => Ok (_access_token (snd refreshed))
        | Raise e => Raise e
        end, snd refreshed)
     /\ exchanges (snd refreshed) = (exchanges s ++ [token_request self])%list)
  /\ (forall method path params body headers timeout,
        _access_token s = VNone ->
        exchanges (snd (_request self method path params body headers timeout env s))
        = (exchanges s ++ [token_request self])%list)
  /\ (forall method path params body headers timeout,
        truthy (_access_token s) = true -> (now < _token_expiry s - (60 # 1))%Q ->
        exchanges (snd (_request self method path params body headers timeout env s))
        = exchanges s).
Proof.
  cbv zeta. repeat split.
  - now apply guard_hit.
  - now apply guard_miss.
  - apply (refresh_exchanges env self (ticked s)).
  - intros method path params body headers timeout Hnone.
    rewrite request_exchanges, guard_miss.
    + apply (refresh_exchanges env self (ticked s)).
    + left. now rewrite Hnone.
  - intros. rewrite request_exchanges, guard_hit; auto.
Qed.

(** The loop over the caller's headers, key by key. *)
Lemma merged_lookup (base extra : gmap string string) (k : string) :
  map_fold add_header base extra !! k
  = if critical k then base !! k
    else match extra !! k with
         | Some v => Some v
         | None => base !! k
         end.
Proof.
  apply (map_fold_weak_ind
           (fun (r : gmap string string) (m : gmap string string) =>
              r !! k = if critical k then base !! k
                       else match m !! k with Some v => Some v | None => base !! k end)).
  - rewrite lookup_empty. now destruct (critical k).
  - intros i x m r Hfresh IH. unfold add_header.
    destruct (decide (i = k)) as [->|Hne].
    + rewrite lookup_insert_eq.
      destruct (critical k); [exact IH | now rewrite lookup_insert_eq].
    + rewrite (lookup_insert_ne m i k x Hne).
      destruct (critical i); [exact IH|]. now rewrite lookup_insert_ne.
Qed.

(** The outgoing headers, key by key. *)
Lemma build_headers_lookup env self token headers (k : string) :
  build_headers env self token headers !! k
  = if String.eqb k "Authorization" then Some ("Bearer " ++ py_str env token)
    else if String.eqb k "ST-App-Key" then Some (app_key self)
    else if critical k then None
    else default ∅ headers !! k.
Proof.
  assert (Hbase : forall j : string,
             (<["ST-App-Key" := app_key self]>
                ({["Authorization" := "Bearer " ++ py_str env token]} : gmap string string)) !! j
             = if String.eqb j "Authorization" then Some ("Bearer " ++ py_str env token)
               else if String.eqb j "ST-App-Key" then Some (app_key self) else None).
  { intros j. destruct (String.eqb j "Authorization") eqn:E1.
    - apply String.eqb_eq in E1. subst j.
      rewrite lookup_insert_ne by discriminate. apply lookup_singleton_eq.
    - apply String.eqb_neq in E1. destruct (String.eqb j "ST-App-Key") eqn:E2.
      + apply String.eqb_eq in E2. subst j. apply lookup_insert_eq.
      + apply String.eqb_neq in E2.
        rewrite lookup_insert_ne by congruence. apply lookup_singleton_ne. congruence. }
  unfold build_headers. destruct headers as [extra|]; cbn [from_option].
  - rewrite merged_lookup, Hbase.
    destruct (String.eqb k "Authorization") eqn:E1.
    { apply String.eqb_eq in E1. subst k. reflexivity. }
    destruct (String.eqb k "ST-App-Key") eqn:E2.
    { apply String.eqb_eq in E2. subst k. reflexivity. }
    destruct (critical k); [reflexivity|]. unfold id. now destruct (extra !! k).
  - rewrite Hbase, lookup_empty.
    destruct (String.eqb k "Authorization"); [reflexivity|].
    destruct (String.eqb k "ST-App-Key"); [reflexivity|]. now destruct (critical k).
Qed.

(** The test of the loop holds of the names that are [Authorization] or
    [ST-App-Key] up to case, and of no other. *)
Lemma critical_same_name (key : string) :
  critical key = same_name "Authorization" key || same_name "ST-App-Key" key.
Proof.
  unfold critical.
  now rewrite <- (same_name_lower "Authorization"), <- (same_name_lower "ST-App-Key").
Qed.

(** C5. Whenever the guard hands [_request] a token, exactly one request
    goes out, and in its headers [Authorization] is [Bearer] followed by that
    token and [ST-App-Key] is the application key of the client.  A header
    of the caller whose name is [Authorization] or [ST-App-Key] up to the
    case of letters is dropped: under any spelling but these two the key is
    absent from the outgoing headers, and under these two it holds the
    client's value.  Every other header of the caller is in them, with the
    caller's value, and nothing else is. *)
Theorem request_headers (env : Env) (self : Config) (method path : string)
    (params : option nat) (body : option value) (headers : option (gmap string string))
    (timeout : option Q) (s s1 : State) (token : value) :
  _get_access_token self env s = (Ok token, s1) ->
  exists rq,
    sent (snd (_request self method path params body headers timeout env s))
      = (sent s ++ [rq])%list
    /\ rq_headers rq !! "Authorization" = Some ("Bearer " ++ py_str env token)
    /\ rq_headers rq !! "ST-App-Key" = Some (app_key self)
    /\ (forall k,
          same_name "Authorization" k = true \/ same_name "ST-App-Key" k = true ->
          k <> "Authorization" -> k <> "ST-App-Key" ->
          rq_headers rq !! k = None)
    /\ (forall k,
          same_name "Authorization" k = false -> same_name "ST-App-Key" k = false ->
          rq_headers rq !! k = default ∅ headers !! k).
Proof.
  intros Hguard. rewrite request_run, Hguard. cbn [snd].
  pose proof (guard_frame env self s) as [Hsent _]. rewrite Hguard in Hsent. cbn in Hsent.
  eexists. split; [unfold dispatched; cbn; now rewrite Hsent|].
  unfold outgoing. cbn [rq_headers]. repeat split.
  - now rewrite build_headers_lookup.
  - now rewrite build_headers_lookup.
  - intros k Hc H1 H2. rewrite build_headers_lookup, critical_same_name.
    apply String.eqb_neq in H1, H2. rewrite H1, H2.
    destruct Hc as [-> | ->]; [reflexivity | now rewrite orb_true_r].
  - intros k Ha Hk. rewrite build_headers_lookup, critical_same_name, Ha, Hk.
    destruct (String.eqb k "Authorization") eqn:E1.
    { apply String.eqb_eq in E1. subst k. discriminate. }
    destruct (String.eqb k "ST-App-Key") eqn:E2.
    { apply String.eqb_eq in E2. subst k. discriminate. }
    reflexivity.
Qed.



Example top_level_copy_ignores_content_type :
  let response := mkResponse 200 (Some "text/plain") [] "7" (Some (VInt 7)) in
  payload response = VStr "7" /\ TopLevelCopy.payload response = VInt 7.
Proof. split; reflexivity. Qed.

(** ** The convenience methods *)

Arguments get : simpl never.

Lemma bind_ok {A B} (c : M A) (k : A -> M B) env s a s' :
  c env s = (Ok a, s') -> bind c k env s = k a env s'.
Proof. unfold bind. now intros ->. Qed.

(** One [get]: no dictionary is written; either it raises before anything
    is sent, or exactly one GET goes out, carrying the dictionary as it is
    at that moment. *)
Lemma get_effect env self path p headers timeout s r s' :
  get self path (Some p) headers timeout env s = (r, s') ->
  store s' = store s
  /\ ((exists e, r = Raise e) /\ sent s' = sent s
      \/ exists rq, sent s' = (sent s ++ [rq])%list
                    /\ rq_method rq = "GET"
                    /\ rq_params rq = Some (default ∅ (store s !! p))).
Proof.
  unfold get. intros Hrun.
  pose proof (request_store env self "GET" path (Some p) None headers timeout s) as Hstore.
  rewrite Hrun in Hstore. split; [exact Hstore|].
  rewrite request_run in Hrun.
  pose proof (guard_frame env self s) as [Hsent Hst].
  destruct (_get_access_token self env s) as [[token|e] s1].
  - right. injection Hrun as _ <-. eexists. cbn in Hsent, Hst.
    split; [unfold dispatched; cbn; now rewrite Hsent|].
    split; [reflexivity|]. cbn. now rewrite Hst.
  - left. injection Hrun as <- <-. split; [now exists e | exact Hsent].
Qed.

Lemma assigned_lookup r k v s d :
  store s !! r = Some d -> store (assigned r k v s) !! r = Some (<[k := v]> d).
Proof. intros H. cbn. now rewrite list_lookup_alter_eq, H. Qed.


Lemma assigned_twice r k v w s :
  store (assigned r k w (with_store (store (assigned r k v s)) s))
  = store (assigned r k w s).
Proof.
  cbn. rewrite list_alter_alter_eq. apply list_alter_ext; [|reflexivity].
  intros d _. cbn. apply insert_insert_eq.
Qed.

Lemma params_given_run params env s :
  params_given params env s = (Ok (given params s), s).
Proof. destruct params; reflexivity. Qed.

Lemma working_params_run (initial : gmap string value) params env s :
  match params with
  | Some r => if given params s then ret r else dict_new initial
  | None => dict_new initial
  end env s
  = (Ok (fst (working_params initial params s)), snd (working_params initial params s)).
Proof.
  unfold working_params. destruct params as [r|]; [|reflexivity].
  destruct (given (Some r) s); reflexivity.
Qed.

Lemma given_lookup r s : given (Some r) s = true -> exists d, store s !! r = Some d /\ d <> ∅.
Proof.
  unfold given. destruct (store s !! r) as [d|]; cbn.
  - intros H. exists d. split; [reflexivity|]. intros ->.
    rewrite map_size_empty in H. discriminate.
  - rewrite map_size_empty. discriminate.
Qed.


(** The dictionary a helper works on exists, and choosing it sends nothing. *)
Lemma working_params_lookup initial params s :
  exists d, store (snd (working_params initial params s)) !! fst (working_params initial params s)
            = Some d
            /\ sent (snd (working_params initial params s)) = sent s.
Proof.
  assert (Hnew : (store s ++ [initial])%list !! List.length (store s) = Some initial).
  { rewrite lookup_app_r by lia. now rewrite Nat.sub_diag. }
  unfold working_params. destruct params as [r|].
  - destruct (given (Some r) s) eqn:Hg.
    + destruct (given_lookup _ _ Hg) as (d & Hd & _). now exists d.
    + eexists. split; [apply Hnew|reflexivity].
  - eexists. split; [apply Hnew|reflexivity].
Qed.

Lemma first_page_lookup params s :
  exists d, store (snd (first_page params s)) !! fst (first_page params s) = Some d
            /\ sent (snd (first_page params s)) = sent s.
Proof.
  unfold first_page. destruct params as [r|].
  - destruct (given (Some r) s) eqn:Hg.
    + destruct (given_lookup _ _ Hg) as (d & Hd & _).
      exists (<["page" := VInt 1]> d). split; [now apply assigned_lookup|reflexivity].
    + apply working_params_lookup.
  - apply working_params_lookup.
Qed.

(** *** The paginated fetch *)

(** One round of the [while True] loop. *)
Lemma loop_round fuel env self path params headers timeout page output s :
  get_all_loop (S fuel) self path params headers timeout page output env s =
  match get self path (Some params) headers timeout env
          (assigned params "page" (VInt page) s) with
  | (Raise _, s') => (Ok (Some output), s')
  | (Ok (VDict fields), s') =>
      match page_items fields with
      | None => (Raise TypeError, s')
      | Some items =>
          if truthy (dict_get "hasMore" fields)
          then get_all_loop fuel self path params headers timeout (page + 1)
                 (output ++ items)%list env s'
          else (Ok (Some (output ++ items)%list), s')
      end
  | (Ok _, s') => (Ok (Some output), s')
  end.
Proof.
  cbn [get_all_loop]. unfold bind at 1. unfold dict_setitem, modify.
  fold (assigned params "page" (VInt page) s).
  unfold bind at 1. unfold attempt.
  destruct (get self path (Some params) headers timeout env _) as [[resp|e] s']; [|reflexivity].
  destruct resp as [| | | | | | |fields]; try reflexivity.
  unfold page_items. destruct (iter_items _) as [items|]; [|reflexivity].
  destruct (truthy (dict_get "hasMore" fields)); reflexivity.
Qed.

Arguments get_all_loop : simpl never.

Lemma get_all_run fuel env self path params headers timeout s :
  get_all fuel self path params headers timeout env s
  = get_all_loop fuel self path (fst (first_page params s)) headers timeout 1 []
      env (snd (first_page params s)).
Proof.
  unfold get_all. erewrite bind_ok by apply params_given_run.
  unfold first_page, working_params. destruct params as [r|]; [|reflexivity].
  destruct (given (Some r) s); reflexivity.
Qed.

Lemma paged_bounds env self path params headers timeout page s out last s' :
  paged env self path params headers timeout page s out last s' -> page <= last.
Proof. induction 1; lia. Qed.

(** The loop does what the description says, given fuel for every page. *)
Lemma paged_loop env self path params headers timeout page s out last s' :
  paged env self path params headers timeout page s out last s' ->
  forall fuel output, (Z.to_nat (last - page) < fuel)%nat ->
    get_all_loop fuel self path params headers timeout page output env s
    = (Ok (Some (output ++ out)%list), s').
Proof.
  induction 1 as [page s e s' Hget|page s resp s' Hget Hnd|page s fields items s' Hget Hit Hmore
                 |page s fields items s' rest last s'' Hget Hit Hmore Hrest IH];
    intros [|fuel] output Hfuel; try lia; rewrite loop_round, Hget.
  - now rewrite app_nil_r.
  - rewrite app_nil_r. destruct resp; try reflexivity; discriminate.
  - now rewrite Hit, Hmore.
  - rewrite Hit, Hmore, IH, app_assoc; [reflexivity|].
    pose proof (paged_bounds _ _ _ _ _ _ _ _ _ _ _ Hrest). lia.
Qed.

(** And whatever the loop returns is a fetch in the sense of the description. *)
Lemma loop_paged env self path params headers timeout fuel :
  forall page output s out s',
    get_all_loop fuel self path params headers timeout page output env s = (Ok (Some out), s') ->
    exists rest last,
      out = (output ++ rest)%list
      /\ paged env self path params headers timeout page s rest last s'.
Proof.
  induction fuel as [|fuel IH]; intros page output s out s'; [discriminate|].
  rewrite loop_round.
  destruct (get self path (Some params) headers timeout env _) as [[resp|e] s1] eqn:Hget.
  - destruct resp as [| | | | | | |fields];
      try (intros [= <- <-]; exists [], page; rewrite app_nil_r; split; [reflexivity|];
           eapply paged_unstructured; [exact Hget | reflexivity]).
    destruct (page_items fields) as [items|] eqn:Hit; [|discriminate].
    destruct (truthy (dict_get "hasMore" fields)) eqn:Hmore.
    + intros Hloop. destruct (IH _ _ _ _ _ Hloop) as (rest & last & -> & Hrest).
      exists (items ++ rest)%list, last. split; [now rewrite app_assoc|].
      eapply paged_more; eauto.
    + intros [= <- <-]. exists items, page. split; [reflexivity|].
      eapply paged_last; eauto.
  - intros [= <- <-]. exists [], page. rewrite app_nil_r. split; [reflexivity|].
    eapply paged_failed; eauto.
Qed.

(** Dictionary and request log along a fetch: only the [page] key of the
    working dictionary is written, ending at the last page asked for, and the
    requests that went out are GETs numbered from the first page on, one per
    page, the last page possibly missing (when its GET raised before
    anything was sent). *)
Lemma paged_trace env self path p headers timeout page s out last s' :
  paged env self path p headers timeout page s out last s' ->
  forall d, store s !! p = Some d ->
    store s' = store (assigned p "page" (VInt last) s)
    /\ exists rqs,
        sent s' = (sent s ++ rqs)%list
        /\ (Z.of_nat (List.length rqs) = last - page + 1
            \/ Z.of_nat (List.length rqs) = last - page)
        /\ label <$> rqs
           = (fun i => ("GET", Some (VInt i))) <$> seqZ page (Z.of_nat (List.length rqs)).
Proof.
  assert (Hone : forall page s r s' d,
             get self path (Some p) headers timeout env (assigned p "page" (VInt page) s)
               = (r, s') ->
             store s !! p = Some d ->
             store s' = store (assigned p "page" (VInt page) s)
             /\ ((exists e, r = Raise e) /\ sent s' = sent s
                 \/ exists rq, sent s' = (sent s ++ [rq])%list
                               /\ label rq = ("GET", Some (VInt page)))).
  { intros page0 s0 r s0' d Hget Hd.
    destruct (get_effect _ _ _ _ _ _ _ _ _ Hget) as [Hst Hsent]. split; [exact Hst|].
    destruct Hsent as [Hfail|(rq & Hs & Hm & Hq)]; [left; exact Hfail|].
    right. exists rq. split; [exact Hs|].
    unfold label, filter_of. rewrite Hm, Hq, (assigned_lookup _ _ _ _ _ Hd). cbn.
    now rewrite lookup_insert_eq. }
  assert (Hstop : forall page s r s' d,
             get self path (Some p) headers timeout env (assigned p "page" (VInt page) s)
               = (r, s') ->
             store s !! p = Some d ->
             store s' = store (assigned p "page" (VInt page) s)
             /\ exists rqs,
                 sent s' = (sent s ++ rqs)%list
                 /\ (Z.of_nat (List.length rqs) = page - page + 1
                     \/ Z.of_nat (List.length rqs) = page - page)
                 /\ label <$> rqs
                    = (fun i => ("GET", Some (VInt i)))
                        <$> seqZ page (Z.of_nat (List.length rqs))).
  { intros page0 s0 r s0' d Hget Hd.
    destruct (Hone _ _ _ _ _ Hget Hd) as [Hst [[_ Hs]|(rq & Hs & Hl)]];
      (split; [exact Hst|]).
    - exists []. rewrite app_nil_r. split; [exact Hs|]. split; [right; cbn; lia|reflexivity].
    - exists [rq]. split; [exact Hs|]. split; [left; cbn; lia|].
      cbn. rewrite Hl. reflexivity. }
  induction 1 as [page s e s' Hget|page s resp s' Hget Hnd|page s fields items s' Hget Hit Hmore
                 |page s fields items s' rest last s'' Hget Hit Hmore Hrest IH];
    intros d Hd; eauto.
  destruct (Hone _ _ _ _ _ Hget Hd) as [Hst [[[e He] _]|(rq & Hs & Hl)]]; [discriminate|].
  assert (Hd' : store s' !! p = Some (<["page" := VInt page]> d)).
  { rewrite Hst. now apply assigned_lookup. }
  destruct (IH _ Hd') as (Hst' & rqs & Hs' & Hlen & Hlab).
  pose proof (paged_bounds _ _ _ _ _ _ _ _ _ _ _ Hrest) as Hle.
  split.
  { rewrite Hst'. cbn. rewrite Hst. apply assigned_twice. }
  exists (rq :: rqs). split.
  { rewrite Hs', Hs, <- app_assoc. reflexivity. }
  split.
  { cbn [List.length]. destruct Hlen; [left|right]; lia. }
  cbn [List.length]. rewrite Nat2Z.inj_succ, seqZ_cons by lia.
  rewrite !fmap_cons, Hl, Hlab. f_equal.
  now rewrite Z.pred_succ.
Qed.

(** The only exception that leaves the loop is the [TypeError] of
    [output.extend] on a [data] that cannot be iterated: whatever [get]
    raises is swallowed. *)
Lemma loop_swallows env self path params headers timeout fuel :
  forall page output s e,
    fst (get_all_loop fuel self path params headers timeout page output env s) = Raise e ->
    e = TypeError.
Proof.
  induction fuel as [|fuel IH]; intros page output s e; [discriminate|].
  rewrite loop_round.
  destruct (get self path (Some params) headers timeout env _) as [[resp|e0] s1];
    [|discriminate].
  destruct resp as [| | | | | | |fields]; try discriminate.
  destruct (page_items fields) as [items|]; [|now intros [= <-]].
  destruct (truthy _); [apply IH | discriminate].
Qed.

(** C7. Whatever the pages are: when, from page 1 on, the GETs -- each with
    the [page] parameter set to its page number -- yield [out] as the
    concatenation of the [data] of the answers, page [last] being the first
    one whose answer does not declare [hasMore], is not an object, or whose
    GET raised (and then contributes nothing), [get_all] returns [out] as
    soon as it is given fuel for [last] rounds, and the requests it sent are
    GETs with page numbers 1, 2, ... in that order, one per page (none for a
    last page whose GET raised before it was sent).  Conversely whatever
    [get_all] returns is such a fetch, and no exception of a GET ever leaves
    [get_all]. *)
Theorem get_all_accumulates (env : Env) (self : Config) (path : string)
    (params : option nat) (headers : option (gmap string string)) (timeout : option Q)
    (s : State) :
  (forall out last s',
      paged env self path (fst (first_page params s)) headers timeout
        1 (snd (first_page params s)) out last s' ->
      (forall fuel, (Z.to_nat last <= fuel)%nat ->
         get_all fuel self path params headers timeout env s = (Ok (Some out), s'))
      /\ exists rqs,
           sent s' = (sent s ++ rqs)%list
           /\ (Z.of_nat (List.length rqs) = last \/ Z.of_nat (List.length rqs) = last - 1)
           /\ label <$> rqs
              = (fun i => ("GET", Some (VInt i))) <$> seqZ 1 (Z.of_nat (List.length rqs)))
  /\ (forall fuel out s',
        get_all fuel self path params headers timeout env s = (Ok (Some out), s') ->
        exists last,
          paged env self path (fst (first_page params s)) headers timeout
            1 (snd (first_page params s)) out last s')
  /\ (forall fuel e,
        fst (get_all fuel self path params headers timeout env s) = Raise e -> e = TypeError).
Proof.
  split; [|split].
  - intros out last s' Hpaged.
    destruct (first_page_lookup params s) as (d & Hd & Hsent).
    destruct (paged_trace _ _ _ _ _ _ _ _ _ _ _ Hpaged d Hd) as (_ & rqs & Hs & Hlen & Hlab).
    pose proof (paged_bounds _ _ _ _ _ _ _ _ _ _ _ Hpaged) as Hle.
    split.
    + intros fuel Hfuel. rewrite get_all_run.
      apply (paged_loop _ _ _ _ _ _ _ _ _ _ _ Hpaged fuel []). lia.
    + exists rqs. rewrite <- Hsent. split; [exact Hs|]. split; [|exact Hlab].
      destruct Hlen; [left|right]; lia.
  - intros fuel out s' Hrun. rewrite get_all_run in Hrun.
    destruct (loop_paged _ _ _ _ _ _ _ _ _ _ _ _ Hrun) as (rest & last & -> & Hpaged).
    now exists last.
  - intros fuel e. rewrite get_all_run. apply loop_swallows.
Qed.


(** *** The batched fetch *)

(** One round of the [for] loop. *)
Lemma chunks_round count i env self path ids p headers timeout data s :
  id_chunks_loop (S count) i self path ids p headers timeout data env s =
  match as_strings (firstn 50 (skipn (50 * i) ids)) with
  | None => (Raise TypeError, s)
  | Some parts =>
      match get self path (Some p) headers timeout env
              (assigned p "ids" (VStr (join "," parts)) s) with
      | (Raise e, s') => (Raise e, s')
      | (Ok (VDict fields), s') =>
          match iter_items (dict_get "data" fields) with
          | None => (Raise TypeError, s')
          | Some items =>
              id_chunks_loop count (S i) self path ids p headers timeout
                (data ++ items)%list env s'
          end
      | (Ok _, s') => (Raise AttributeError, s')
      end
  end.
Proof.
  cbn [id_chunks_loop]. unfold str_join. unfold bind at 1.
  destruct (as_strings _) as [parts|]; [|reflexivity].
  unfold ret at 1. cbv beta iota.
  unfold bind at 1. unfold dict_setitem, modify.
  fold (assigned p "ids" (VStr (join "," parts)) s).
  unfold bind at 1.
  destruct (get self path (Some p) headers timeout env _) as [[resp|e] s']; [|reflexivity].
  destruct resp as [| | | | | | |fields]; try reflexivity.
  unfold bind at 1. cbn [method_get ret].
  destruct (iter_items _); reflexivity.
Qed.

Arguments id_chunks_loop : simpl never.


(** Fewer than 50 identifiers: one GET under the caller's filter name. *)
Lemma id_filter_small_run env self path ids name params headers timeout s :
  (List.length ids < 50)%nat ->
  get_all_id_filter self path ids name params headers timeout env s
  = let p := fst (working_params ∅ params s) in
    let s0 := snd (working_params ∅ params s) in
    match as_strings ids with
    | None => (Raise TypeError, s0)
    | Some parts =>
        data_or_empty
          (get self path (Some p) headers timeout env
             (assigned p name (VStr (join "," parts)) s0))
    end.
Proof.
  intros Hlen. unfold get_all_id_filter.
  erewrite bind_ok by apply params_given_run.
  erewrite bind_ok by apply working_params_run.
  apply Nat.ltb_lt in Hlen. rewrite Hlen. cbv zeta.
  unfold str_join. unfold bind at 1.
  destruct (as_strings ids) as [parts|]; [|reflexivity].
  unfold ret at 1. cbv beta iota.
  unfold bind at 1. unfold dict_setitem, modify.
  fold (assigned (fst (working_params ∅ params s)) name (VStr (join "," parts))
          (snd (working_params ∅ params s))).
  unfold bind at 1.
  destruct (get self path _ headers timeout env _) as [[resp|e] s']; [|reflexivity].
  destruct resp; reflexivity.
Qed.

(** 50 identifiers or more: the chunk loop, in which the filter name does not
    occur. *)
Lemma id_filter_large_run env self path ids name params headers timeout s :
  (50 <= List.length ids)%nat ->
  get_all_id_filter self path ids name params headers timeout env s
  = let p := fst (working_params ∅ params s) in
    let s0 := snd (working_params ∅ params s) in
    let rounds := if Nat.eqb (List.length ids mod 50) 0
                  then (List.length ids / 50)%nat
                  else (List.length ids / 50 + 1)%nat in
    match id_chunks_loop rounds 0 self path ids p headers timeout [] env s0 with
    | (Ok data, s') => (Ok (VList data), s')
    | (Raise e, s') => (Raise e, s')
    end.
Proof.
  intros Hlen. unfold get_all_id_filter.
  erewrite bind_ok by apply params_given_run.
  erewrite bind_ok by apply working_params_run.
  apply Nat.ltb_ge in Hlen. rewrite Hlen. cbv zeta.
  destruct (Nat.eqb _ 0); unfold bind;
    destruct (id_chunks_loop _ _ _ _ _ _ _ _ _ _ _) as [[data|e] s']; reflexivity.
Qed.

(** From 50 identifiers on, the caller's filter name has no effect at all. *)
Lemma id_filter_name_unused env self path ids name params headers timeout s :
  (50 <= List.length ids)%nat ->
  get_all_id_filter self path ids name params headers timeout env s
  = get_all_id_filter self path ids "ids" params headers timeout env s.
Proof. intros Hlen. now rewrite !id_filter_large_run. Qed.


Lemma rounds_enough (n : nat) : (n <= 50 * rounds n)%nat.
Proof.
  unfold rounds. pose proof (Nat.div_mod_eq n 50) as H.
  destruct (Nat.eqb (n mod 50) 0) eqn:E.
  - apply Nat.eqb_eq in E. lia.
  - pose proof (Nat.mod_upper_bound n 50). lia.
Qed.

Lemma rounds_tight (n i : nat) : (i < rounds n)%nat -> (50 * i < n)%nat.
Proof.
  unfold rounds. pose proof (Nat.div_mod_eq n 50) as H.
  destruct (Nat.eqb (n mod 50) 0) eqn:E.
  - intros Hi. nia.
  - apply Nat.eqb_neq in E. intros Hi. nia.
Qed.

Lemma rounds_positive (n : nat) : (50 <= n)%nat -> exists k, rounds n = S k.
Proof.
  intros H. pose proof (rounds_enough n). destruct (rounds n) as [|k]; [lia|now exists k].
Qed.



(** ** Sample runs *)

(** C1 at a client whose token is good for another 900 seconds. *)
Lemma get_access_token_lazy_witness :
  _get_access_token sample_self three_pages warm = (Ok (VStr "old"), ticked warm)
  /\ exchanges (ticked warm) = exchanges warm.
Proof.
  apply (proj1 (get_access_token_lazy three_pages sample_self warm)).
  - reflexivity.
  - vm_compute. reflexivity.
Defined.



(** C3. The answer [{"access_token": "tok", "expires_in": true}] to the
    exchange is a success; its [expires_in] is a JSON boolean, not a number,
    yet [isinstance(True, (int, float))] holds and [float(True)] is 1: the
    token is stored with an expiry of the clock plus 1 second, not plus the
    900 seconds kept for a field that is not a number. *)
Theorem refresh_boolean_lifetime :
  let run := _refresh_access_token sample_self boolean_lifetime fresh in
  fst run = Ok tt
  /\ _access_token (snd run) = VStr "tok"
  /\ _token_expiry (snd run) = (inject_Z 1000 + (1 # 1))%Q
  /\ ~ (_token_expiry (snd run) == inject_Z 1000 + (900 # 1))%Q.
Proof.
  vm_compute. repeat split. intros H. discriminate H.
Qed.

(** C4 at the sample client. *)
Lemma prepare_url_resolves_witness :
  _prepare_url sample_self "https://x/y" = "https://x/y"
  /\ _prepare_url sample_self "tenant/employees"
     = "https://api-integration.servicetitan.io/tenant/123456/employees".
Proof.
  split.
  - apply (proj1 (prepare_url_resolves sample_self) "https://x/y"). right. reflexivity.
  - apply (proj1 (proj2 (proj2 (prepare_url_resolves sample_self)))). reflexivity.
Defined.

(** C5 at a caller who passes [authorization], [ST-APP-KEY] and
    [ST-App-Key] with a Kelvin sign, each with a forged value, beside
    [X-Trace]: the three are not in the request, [X-Trace] is. *)
Lemma request_headers_witness :
  exists rq,
    sent (snd (_request sample_self "get" "tenant/employees" None None
                 (Some forged_headers) None three_pages fresh))
      = [rq]
    /\ rq_headers rq !! "Authorization" = Some "Bearer tok"
    /\ rq_headers rq !! "ST-App-Key" = Some "myappkey"
    /\ rq_headers rq !! "authorization" = None
    /\ rq_headers rq !! "ST-APP-KEY" = None
    /\ rq_headers rq !! kelvin_key = None
    /\ rq_headers rq !! "X-Trace" = Some "on".
Proof.
  destruct (request_headers three_pages sample_self "get" "tenant/employees" None None
              (Some forged_headers) None
              fresh (snd (_get_access_token sample_self three_pages fresh)) (VStr "tok"))
    as (rq & Hsent & Hauth & Hkey & Hdrop & Hmerge).
  - vm_compute. reflexivity.
  - exists rq. split; [exact Hsent|]. split; [exact Hauth|]. split; [exact Hkey|].
    split; [apply Hdrop; [left; reflexivity | discriminate | discriminate]|].
    split; [apply Hdrop; [right; reflexivity | discriminate | discriminate]|].
    split; [apply Hdrop; [right; reflexivity | discriminate | discriminate]|].
    rewrite Hmerge by reflexivity. vm_compute. reflexivity.
Defined.



(** C7 at the collection of three pages. *)
Lemma get_all_accumulates_witness :
  exists s',
    get_all 3 sample_self "crm/v2/tenant/customers" None None None three_pages fresh
    = (Ok (Some [VInt 1; VInt 2; VInt 3; VInt 4; VInt 5]), s').
Proof.
  eexists.
  refine (proj1 (proj1 (get_all_accumulates three_pages sample_self "crm/v2/tenant/customers"
                          None None None fresh)
                   [VInt 1; VInt 2; VInt 3; VInt 4; VInt 5] 3 _ _) 3%nat _).
  - change [VInt 1; VInt 2; VInt 3; VInt 4; VInt 5]
      with ([VInt 1; VInt 2] ++ ([VInt 3] ++ [VInt 4; VInt 5]))%list.
    eapply paged_more; [vm_compute; reflexivity | reflexivity | reflexivity |].
    eapply paged_more; [vm_compute; reflexivity | reflexivity | reflexivity |].
    eapply paged_last; [vm_compute; reflexivity | reflexivity | reflexivity].
  - vm_compute. lia.
Defined.

Example three_pages_requests :
  label <$> sent (snd (get_all 3 sample_self "crm/v2/tenant/customers" None None None
                         three_pages fresh))
  = [("GET", Some (VInt 1)); ("GET", Some (VInt 2)); ("GET", Some (VInt 3))].
Proof. vm_compute. reflexivity. Qed.

(** C8. 120 identifiers and the filter name [jobIds]: three GETs go out, for
    the chunks of 50, 50 and 20 identifiers, and the answers are concatenated
    in order -- but none of the three carries a [jobIds] parameter: the
    joined chunk is in a parameter named [ids]. *)
Theorem id_filter_name_ignored :
  let run := get_all_id_filter sample_self "jpm/v2/tenant/jobs" (numbered 120) "jobIds"
               None None None counting fresh in
  fst run = Ok (VList [VInt 0; VInt 1; VInt 2])
  /\ filter_of "jobIds" <$> sent (snd run) = [None; None; None]
  /\ filter_of "ids" <$> sent (snd run)
     = [Some (VStr (numerals 1 50)); Some (VStr (numerals 51 50)); Some (VStr (numerals 101 20))].
Proof. vm_compute. repeat split. Qed.

(** Below 50 identifiers the caller's name is the one that is set. *)
Example id_filter_name_used_below_50 :
  let run := get_all_id_filter sample_self "jpm/v2/tenant/jobs" (numbered 20) "jobIds"
               None None None counting fresh in
  filter_of "jobIds" <$> sent (snd run) = [Some (VStr (numerals 1 20))]
  /\ filter_of "ids" <$> sent (snd run) = [None].
Proof. vm_compute. repeat split. Qed.



(** With the default filter name the last chunk of 120 identifiers is what
    the caller finds under the filter key. *)
Example default_filter_caller_sees_last_chunk :
  let s := with_store [{["pageSize" := VInt 50]}] fresh in
  let run := get_all_id_filter sample_self "jpm/v2/tenant/jobs" (numbered 120) "ids"
               (Some 0%nat) None None counting s in
  store (snd run) !! 0%nat ≫= (fun d => d !! "ids") = Some (VStr (numerals 101 20))
  /\ store (snd run) !! 0%nat ≫= (fun d => d !! "pageSize") = Some (VInt 50).
Proof. vm_compute. split; reflexivity. Qed.

Example pagesize_caller_sees_page :
  let s := with_store [{["pageSize" := VInt 50]}] fresh in
  let run := get_all 3 sample_self "crm/v2/tenant/customers" (Some 0%nat) None None
               three_pages s in
  store (snd run) !! 0%nat ≫= (fun d => d !! "page") = Some (VInt 3)
  /\ store (snd run) !! 0%nat ≫= (fun d => d !! "pageSize") = Some (VInt 50).
Proof. vm_compute. split; reflexivity. Qed.

(** * Further properties *)

(** ** Construction *)

(** X1. [__init__] succeeds exactly when the three credentials are
    non-empty and the environment, lower-cased, is [integration] or
    [production]; it then keeps the credentials and the tenant as given and
    stores the environment in lower case.  In every other case it raises
    [ValueError]. *)
Theorem init_validates (cid csec key : string) (guid ten : option string) (envn : string)
    (au bu : option string) (tz : string) :
  (cid <> "" /\ csec <> "" /\ key <> ""
   /\ (lower envn = "integration" \/ lower envn = "production") ->
   exists c,
     __init__ cid csec key guid ten envn au bu tz = Ok c
     /\ client_id c = cid /\ client_secret c = csec /\ app_key c = key
     /\ tenant c = ten /\ environment c = lower envn)
  /\ (cid = "" \/ csec = "" \/ key = ""
      \/ (lower envn <> "integration" /\ lower envn <> "production") ->
      __init__ cid csec key guid ten envn au bu tz = Raise ValueError).
Proof.
  unfold __init__. split.
  - intros (H1 & H2 & H3 & He).
    apply String.eqb_neq in H1, H2, H3. rewrite H1, H2, H3.
    assert (String.eqb (lower envn) "integration" || String.eqb (lower envn) "production" = true)
      as ->.
    { destruct He as [-> | ->]; reflexivity. }
    cbn [negb]. eexists. repeat split.
  - intros [-> | [-> | [-> | [H1 H2]]]]; try reflexivity.
    + destruct (String.eqb cid ""); reflexivity.
    + destruct (String.eqb cid ""); [reflexivity|].
      destruct (String.eqb csec ""); reflexivity.
    + destruct (String.eqb cid ""); [reflexivity|].
      destruct (String.eqb csec ""); [reflexivity|].
      destruct (String.eqb key ""); [reflexivity|].
      apply String.eqb_neq in H1, H2. now rewrite H1, H2.
Qed.

(** X2. A client that [__init__] returns has one of the two environments;
    an [auth_url] or [base_url] argument that is a non-empty string is used
    as it is, and one that is [None] or empty is replaced by the URL of the
    environment. *)
Theorem init_endpoints (cid csec key : string) (guid ten : option string) (envn : string)
    (au bu : option string) (tz : string) (c : Config) :
  __init__ cid csec key guid ten envn au bu tz = Ok c ->
  (environment c = "integration" \/ environment c = "production")
  /\ (forall u, au = Some u -> u <> "" -> auth_url c = u)
  /\ (forall u, bu = Some u -> u <> "" -> base_url c = u)
  /\ (au = None \/ au = Some "" ->
      auth_url c = if String.eqb (environment c) "integration"
                   then "https://auth-integration.servicetitan.io/connect/token"
                   else "https://auth.servicetitan.io/connect/token")
  /\ (bu = None \/ bu = Some "" ->
      base_url c = if String.eqb (environment c) "integration"
                   then "https://api-integration.servicetitan.io"
                   else "https://api.servicetitan.io").
Proof.
  unfold __init__.
  destruct (String.eqb cid ""); [discriminate|].
  destruct (String.eqb csec ""); [discriminate|].
  destruct (String.eqb key ""); [discriminate|].
  destruct (String.eqb (lower envn) "integration") eqn:E1;
    destruct (String.eqb (lower envn) "production") eqn:E2; cbn [orb negb];
    try discriminate; intros [= <-]; cbn [environment auth_url base_url];
    (split; [first [left; now apply String.eqb_eq | right; now apply String.eqb_eq]|]);
    (split; [intros u -> Hu; cbn; apply String.eqb_neq in Hu; now rewrite Hu|]);
    (split; [intros u -> Hu; cbn; apply String.eqb_neq in Hu; now rewrite Hu|]);
    unfold _DEFAULT_AUTH_URLS, _DEFAULT_BASE_URLS; rewrite E1;
    split; intros [-> | ->]; reflexivity.
Qed.

(** ** Authentication *)



(** X4. A successful answer whose [access_token] is present but empty,
    null, zero or false is refused like a missing one: the call raises
    [ServiceTitanAuthError] and only the log of exchanges has grown. *)
Theorem refresh_rejects_falsy_token (env : Env) (self : Config) (s : State)
    (response : Response) (fields : list (string * value)) :
  auth_server env (List.length (exchanges s)) (token_request self) = Responded response ->
  ok response = true ->
  json response = Some (VDict fields) ->
  truthy (dict_get "access_token" fields) = false ->
  _refresh_access_token self env s
  = (Raise (ServiceTitanAuthError "Authentication response did not contain an access_token"),
     exchanged self s).
Proof.
  intros Hreply Hok Hjson Htok. now rewrite refresh_run, Hreply, Hok, Hjson, Htok.
Qed.

(** X6. A life time of 59 seconds or less is used up by the safety margin
    of 60: once a refresh has returned with such a life time, the very next
    call of the guard exchanges again, however soon it comes.  The clock
    reads epoch seconds, from 0 to [2^32], and does not run backwards; at
    that size the second to spare is far more than the two float operations
    on the way ([now + expires_in], [expiry - 60]) can round away. *)
Theorem short_lifetime_defeats_cache (env : Env) (self : Config) (s s' : State)
    (response : Response) (fields : list (string * value)) (seconds : Q) :
  _refresh_access_token self env s = (Ok tt, s') ->
  auth_server env (List.length (exchanges s)) (token_request self) = Responded response ->
  json response = Some (VDict fields) ->
  lifetime (dict_get "expires_in" fields) = Ok seconds ->
  (seconds <= 59 # 1)%Q ->
  (0 <= time_time env (clock_reads s) <= inject_Z (2 ^ 32))%Q ->
  (time_time env (clock_reads s) <= time_time env (clock_reads s'))%Q ->
  exchanges (snd (_get_access_token self env s')) = (exchanges s' ++ [token_request self])%list.
Proof.
  intros Hrun Hreply Hjson Hlife Hshort _ Hclock.
  rewrite guard_miss; [cbn [snd]; now rewrite refresh_exchanges|].
  right. revert Hrun Hclock. rewrite refresh_run, Hreply, Hjson.
  destruct (ok response); [|discriminate].
  destruct (truthy (dict_get "access_token" fields)); [|discriminate].
  rewrite Hlife. intros [= <-].
  cbn [_token_expiry with_token_expiry clock_reads with_clock_reads].
  set (t0 := time_time env (clock_reads s)). set (t1 := time_time env _).
  clearbody t0 t1. intros Hclock. lra.
Qed.

(** ** The dispatcher *)

(** The cache after a request is the cache after its guard. *)
Lemma request_cache env self method path params body headers timeout s :
  _access_token (snd (_request self method path params body headers timeout env s))
  = _access_token (snd (_get_access_token self env s))
  /\ _token_expiry (snd (_request self method path params body headers timeout env s))
     = _token_expiry (snd (_get_access_token self env s)).
Proof.
  rewrite request_run.
  destruct (_get_access_token self env s) as [[token|e] s1]; split; reflexivity.
Qed.



(** X8. A token that is still usable survives the request whatever the API
    answers -- an error status such as 401 or a transport failure neither
    clears nor renews it. *)
Theorem request_keeps_cache (env : Env) (self : Config) (method path : string)
    (params : option nat) (body : option value) (headers : option (gmap string string))
    (timeout : option Q) (s : State) :
  truthy (_access_token s) = true ->
  (time_time env (clock_reads s) < _token_expiry s - (60 # 1))%Q ->
  let s' := snd (_request self method path params body headers timeout env s) in
  _access_token s' = _access_token s /\ _token_expiry s' = _token_expiry s
  /\ exchanges s' = exchanges s.
Proof.
  intros Ht Hlt. cbv zeta.
  destruct (request_cache env self method path params body headers timeout s) as [-> ->].
  rewrite request_exchanges, (guard_hit env self s Ht Hlt). repeat split.
Qed.

(** X9. When the transport raises on the API request, [_request] raises
    [ServiceTitanAPIError] with the message [Failed to connect to <url>:
    <exception>]; the request counts as sent and the cache is as the guard
    left it. *)
Theorem request_transport_failure (env : Env) (self : Config) (method path : string)
    (params : option nat) (body : option value) (headers : option (gmap string string))
    (timeout : option Q) (s s1 : State) (token : value) (exc : string) :
  _get_access_token self env s = (Ok token, s1) ->
  api_server env (List.length (sent s1))
    (outgoing env self method path (query_of params s1) body headers timeout token)
    = TransportFailed exc ->
  _request self method path params body headers timeout env s
  = (Raise (ServiceTitanAPIError
              ("Failed to connect to " ++ _prepare_url self path ++ ": " ++ exc)),
     dispatched (outgoing env self method path (query_of params s1) body headers timeout token)
       s1).
Proof.
  intros Hguard Hreply. rewrite request_run, Hguard. cbv zeta. now rewrite Hreply.
Qed.

(** The request a call puts on the wire once the guard has a token. *)
Lemma request_wire env self method path params body headers timeout s token s1 :
  _get_access_token self env s = (Ok token, s1) ->
  exists rq,
    sent (snd (_request self method path params body headers timeout env s))
      = (sent s ++ [rq])%list
    /\ rq_method rq = upper method /\ rq_json rq = body
    /\ rq_url rq = _prepare_url self path.
Proof.
  intros Hguard. rewrite request_run, Hguard. cbn [snd].
  pose proof (guard_frame env self s) as [Hsent _]. rewrite Hguard in Hsent. cbn in Hsent.
  eexists. split; [unfold dispatched; cbn; now rewrite Hsent|]. repeat split.
Qed.

(** X10. With a token at hand each of [get], [post], [put], [patch] and
    [delete] puts exactly one request on the wire, to the prepared URL, under
    its own verb; [post], [put] and [patch] carry the body they are given,
    [get] and [delete] never carry one. *)
Theorem verbs_on_the_wire (env : Env) (self : Config) (path : string) (body : option value)
    (params : option nat) (headers : option (gmap string string)) (timeout : option Q)
    (s s1 : State) (token : value) :
  _get_access_token self env s = (Ok token, s1) ->
  let wire (run : result value * State) :=
    (fun rq => (rq_method rq, rq_url rq, rq_json rq))
      <$> drop (List.length (sent s)) (sent (snd run)) in
  let url := _prepare_url self path in
  wire (get self path params headers timeout env s) = [("GET", url, None)]
  /\ wire (post self path body params headers timeout env s) = [("POST", url, body)]
  /\ wire (put self path body params headers timeout env s) = [("PUT", url, body)]
  /\ wire (patch self path body params headers timeout env s) = [("PATCH", url, body)]
  /\ wire (delete self path params headers timeout env s) = [("DELETE", url, None)].
Proof.
  intros Hguard. cbv zeta. unfold get, post, put, patch, delete.
  repeat split;
    match goal with
    | |- context [_request self ?m path params ?b headers timeout env s] =>
        destruct (request_wire env self m path params b headers timeout s token s1 Hguard)
          as (rq & -> & Hm & Hb & Hu)
    end;
    rewrite drop_app_length; cbn; now rewrite Hm, Hb, Hu.
Qed.

(** ** URLs *)

Lemma startswith_app_l (p b rest : string) :
  startswith p b = true -> startswith p (b ++ rest) = true.
Proof.
  revert b. induction p as [|c p IH]; intros b; [reflexivity|].
  destruct b as [|d b]; [discriminate|].
  change (Ascii.eqb c d && startswith p b = true ->
          Ascii.eqb c d && startswith p (b ++ rest) = true).
  intros H. apply andb_true_iff in H as [-> H]. now rewrite (IH _ H).
Qed.

(** X12. When the base URL (without its trailing slashes) is itself an
    [http://] or [https://] URL -- as both default base URLs are -- preparing
    a URL twice is preparing it once: a URL the client has prepared can be
    passed back in as a path. *)
Theorem prepare_url_idempotent (self : Config) (path : string) :
  startswith "http://" (rstrip "/" (base_url self)) = true
  \/ startswith "https://" (rstrip "/" (base_url self)) = true ->
  _prepare_url self (_prepare_url self path) = _prepare_url self path.
Proof.
  intros Hbase.
  destruct (startswith "http://" path || startswith "https://" path) eqn:Habs.
  - assert (_prepare_url self path = path) as ->.
    { unfold _prepare_url. now rewrite Habs. }
    unfold _prepare_url. now rewrite Habs.
  - assert (exists rest, _prepare_url self path = rstrip "/" (base_url self) ++ rest)
      as [rest ->].
    { unfold _prepare_url. rewrite Habs. eexists. reflexivity. }
    unfold _prepare_url.
    destruct Hbase as [H|H]; rewrite (startswith_app_l _ _ rest H);
      [reflexivity | now rewrite orb_true_r].
Qed.


Lemma contains_app (ch : ascii) (a b : string) :
  contains ch (a ++ b) = contains ch a || contains ch b.
Proof.
  induction a as [|c a IH]; [reflexivity|].
  change (Ascii.eqb c ch || contains ch (a ++ b)
          = Ascii.eqb c ch || contains ch a || contains ch b).
  now rewrite IH, orb_assoc.
Qed.









(** ** The paginated fetch *)

(** X15. [get_all] has no page limit of its own: against an API whose every
    answer is an object that declares [hasMore], the loop is still running
    after any number of rounds. *)
Theorem get_all_unbounded (env : Env) (self : Config) (path : string)
    (params : option nat) (headers : option (gmap string string)) (timeout : option Q)
    (s : State) :
  (forall page s0, exists fields s1,
      get self path (Some (fst (first_page params s))) headers timeout env
        (assigned (fst (first_page params s)) "page" (VInt page) s0) = (Ok (VDict fields), s1)
      /\ page_items fields <> None
      /\ truthy (dict_get "hasMore" fields) = true) ->
  forall fuel, fst (get_all fuel self path params headers timeout env s) = Ok None.
Proof.
  intros Hmore fuel. rewrite get_all_run.
  generalize (snd (first_page params s)) as s0. generalize (@nil value) as output.
  generalize 1 as page.
  induction fuel as [|fuel IH]; intros page output s0; [reflexivity|].
  rewrite loop_round.
  destruct (Hmore page s0) as (fields & s1 & -> & Hit & Hm).
  destruct (page_items fields) as [items|]; [|congruence].
  rewrite Hm. apply IH.
Qed.

(** In the sample environment [endless] every GET yields such an answer. *)
Lemma endless_get (path : string) (p : nat) (s : State) :
  exists fields s1,
    get sample_self path (Some p) None None endless s = (Ok (VDict fields), s1)
    /\ page_items fields <> None
    /\ truthy (dict_get "hasMore" fields) = true.
Proof.
  unfold get. rewrite request_run.
  destruct (_get_access_token sample_self endless s) as [[token|e] s1] eqn:Hg.
  - cbv zeta. cbn [classified api_server endless page_reply json_reply].
    eexists _, _. split; [reflexivity|]. split; [discriminate|reflexivity].
  - exfalso. revert Hg. rewrite guard_run.
    destruct (negb (truthy (_access_token s)) || _) eqn:Hcond.
    + rewrite refresh_run. cbn. discriminate.
    + apply orb_false_iff in Hcond as [Ht _]. apply negb_false_iff in Ht.
      now rewrite (truthy_asserted _ Ht).
Qed.

(** ** The batched fetch *)

Lemma as_strings_fmap (parts : list string) : as_strings (VStr <$> parts) = Some parts.
Proof. induction parts as [|x parts IH]; [reflexivity|]. cbn. now rewrite IH. Qed.

Lemma chunk_fmap (i : nat) (parts : list string) :
  chunk i (VStr <$> parts) = VStr <$> chunk i parts.
Proof. unfold chunk. now rewrite <- fmap_drop, <- fmap_take. Qed.

(** X16. For fewer than 50 identifiers, all strings, [get_all_id_filter]
    sets the parameter named by the caller to the identifiers joined by
    commas, calls [get] once and returns the [data] of the object it gets, or
    the empty list when [data] is missing or empty; an exception of [get]
    passes through, and a payload that is not an object raises
    [AttributeError].  On the wire that is one GET carrying the joined
    identifiers, or nothing when [get] raised before sending. *)
Theorem id_filter_single_request (env : Env) (self : Config) (path name : string)
    (parts : list string) (params : option nat) (headers : option (gmap string string))
    (timeout : option Q) (s : State) :
  (List.length parts < 50)%nat ->
  let p := fst (working_params ∅ params s) in
  let s0 := assigned p name (VStr (join "," parts)) (snd (working_params ∅ params s)) in
  let run := get_all_id_filter self path (VStr <$> parts) name params headers timeout env s in
  run = match get self path (Some p) headers timeout env s0 with
        | (Ok (VDict fields), s') =>
            (Ok match fields_get "data" fields with
                | Some data => if truthy data then data else VList []
                | None => VList []
                end, s')
        | (Ok _, s') => (Raise AttributeError, s')
        | (Raise e, s') => (Raise e, s')
        end
  /\ ((exists e, fst run = Raise e) /\ sent (snd run) = sent s
      \/ exists rq, sent (snd run) = (sent s ++ [rq])%list
                    /\ rq_method rq = "GET"
                    /\ filter_of name rq = Some (VStr (join "," parts))).
Proof.
  intros Hlen. cbv zeta. rewrite id_filter_small_run by now rewrite length_fmap.
  cbv zeta. rewrite as_strings_fmap.
  destruct (working_params_lookup ∅ params s) as (d & Hd & Hsent).
  set (p := fst (working_params ∅ params s)) in *.
  set (s0 := snd (working_params ∅ params s)) in *.
  destruct (get self path (Some p) headers timeout env _) as [r s'] eqn:Hget.
  destruct (get_effect _ _ _ _ _ _ _ _ _ Hget) as [_ Hlog]. split.
  - destruct r as [[| | | | | | |fields]|e]; try reflexivity.
    cbn. unfold py_or, dict_get. destruct (fields_get "data" fields); reflexivity.
  - destruct Hlog as [[[e ->] Hs]|(rq & Hs & Hm & Hq)].
    + left. cbn. split; [now exists e|]. rewrite Hs. exact Hsent.
    + right. exists rq. split.
      { destruct r as [[| | | | | | |fields]|e]; cbn; rewrite Hs; cbn; now rewrite Hsent. }
      split; [exact Hm|]. unfold filter_of. rewrite Hq, (assigned_lookup _ _ _ _ _ Hd). cbn.
      now rewrite lookup_insert_eq.
Qed.

(** The slices taken by the rounds, put end to end, are a prefix. *)
Lemma chunks_take {A} (l : list A) (n : nat) :
  concat (map (fun i => chunk i l) (seq 0 n)) = firstn (50 * n) l.
Proof.
  induction n as [|n IH]; [now rewrite Nat.mul_0_r|].
  rewrite seq_S, map_app, concat_app, IH. cbn [map concat]. rewrite app_nil_r.
  unfold chunk. cbn [Nat.add]. rewrite take_take_drop. f_equal. lia.
Qed.

(** The slices cover the list exactly, none empty, none longer than 50. *)
Lemma chunks_cover {A} (l : list A) :
  concat (map (fun i => chunk i l) (seq 0 (rounds (List.length l)))) = l
  /\ Forall (fun c => (0 < List.length c <= 50)%nat)
       (map (fun i => chunk i l) (seq 0 (rounds (List.length l)))).
Proof.
  split.
  - rewrite chunks_take. apply take_ge, rounds_enough.
  - apply List.Forall_forall. intros c Hc. apply List.in_map_iff in Hc as (i & <- & Hi).
    apply List.in_seq in Hi. unfold chunk.
    pose proof (rounds_tight (List.length l) i ltac:(lia)) as Hlt.
    rewrite length_take, length_drop. lia.
Qed.

(** The requests of a chunk loop that ran to its end. *)
Lemma chunks_trace env self path parts p headers timeout count :
  forall i data s out s' d,
    store s !! p = Some d ->
    id_chunks_loop count i self path (VStr <$> parts) p headers timeout data env s
      = (Ok out, s') ->
    exists rqs,
      sent s' = (sent s ++ rqs)%list
      /\ rq_method <$> rqs = replicate count "GET"
      /\ filter_of "ids" <$> rqs
         = (fun j => Some (VStr (join "," (chunk j parts)))) <$> seq i count.
Proof.
  induction count as [|count IH]; intros i data s out s' d Hd.
  - intros [= <- <-]. exists []. now rewrite app_nil_r.
  - rewrite chunks_round. fold (chunk i (VStr <$> parts)).
    rewrite chunk_fmap, as_strings_fmap.
    destruct (get self path (Some p) headers timeout env _) as [res s1] eqn:Hget.
    destruct (get_effect _ _ _ _ _ _ _ _ _ Hget) as [Hst Hlog].
    destruct res as [[| | | | | | |fields]|e]; try discriminate.
    destruct (iter_items _) as [items|]; [|discriminate].
    intros Hloop.
    destruct Hlog as [[[e He] _]|(rq & Hs & Hm & Hq)]; [discriminate|].
    assert (Hd1 : store s1 !! p = Some (<["ids" := VStr (join "," (chunk i parts))]> d)).
    { rewrite Hst. now apply assigned_lookup. }
    destruct (IH _ _ _ _ _ _ Hd1 Hloop) as (rqs & Hs' & Hms & Hfs).
    exists (rq :: rqs). split; [rewrite Hs', Hs, <- app_assoc; reflexivity|].
    split; [cbn; now rewrite Hm, Hms|].
    cbn [seq]. rewrite !fmap_cons, Hfs. f_equal.
    unfold filter_of. rewrite Hq, (assigned_lookup _ _ _ _ _ Hd). cbn.
    now rewrite lookup_insert_eq.
Qed.

(** X17. When [get_all_id_filter] returns for 50 or more identifiers, all
    strings, it has sent one GET per chunk and nothing else; the chunks are
    consecutive slices of the list, each of 1 to 50 identifiers, which put
    end to end give the list back -- no identifier is left out or sent
    twice -- and each GET carries its chunk, joined by commas, in the
    parameter [ids]. *)
Theorem id_filter_chunks (env : Env) (self : Config) (path name : string)
    (parts : list string) (params : option nat) (headers : option (gmap string string))
    (timeout : option Q) (s s' : State) (found : value) :
  (50 <= List.length parts)%nat ->
  get_all_id_filter self path (VStr <$> parts) name params headers timeout env s
    = (Ok found, s') ->
  let chunks := map (fun i => chunk i parts) (seq 0 (rounds (List.length parts))) in
  concat chunks = parts
  /\ Forall (fun c => (0 < List.length c <= 50)%nat) chunks
  /\ exists rqs,
       sent s' = (sent s ++ rqs)%list
       /\ rq_method <$> rqs = replicate (List.length chunks) "GET"
       /\ filter_of "ids" <$> rqs = (fun c => Some (VStr (join "," c))) <$> chunks.
Proof.
  intros Hlen Hrun. cbv zeta.
  destruct (chunks_cover parts) as [Hcat Hall]. split; [exact Hcat|]. split; [exact Hall|].
  rewrite id_filter_large_run in Hrun by now rewrite length_fmap.
  cbv zeta in Hrun. rewrite length_fmap in Hrun. fold (rounds (List.length parts)) in Hrun.
  destruct (working_params_lookup ∅ params s) as (d & Hd & Hsent).
  destruct (id_chunks_loop _ _ _ _ _ _ _ _ _ _ _) as [[data|e] s1] eqn:Hloop;
    [|discriminate].
  injection Hrun as _ <-.
  destruct (chunks_trace _ _ _ _ _ _ _ _ _ _ _ _ _ _ Hd Hloop) as (rqs & Hs & Hm & Hf).
  exists rqs. rewrite <- Hsent. split; [exact Hs|].
  rewrite length_map, length_seq. split; [exact Hm|].
  rewrite Hf.
  change (map (fun i => chunk i parts) (seq 0 (rounds (List.length parts))))
    with ((fun i => chunk i parts) <$> seq 0 (rounds (List.length parts))).
  now rewrite <- list_fmap_compose.
Qed.

(** X18. With 50 or more identifiers nothing is forgiven on the first
    chunk: an exception of its [get] passes through, a payload that is not an
    object raises [AttributeError], and an object whose [data] is missing or
    null raises [TypeError] -- where the branch for fewer than 50 identifiers
    returns the empty list. *)
Theorem id_filter_first_chunk_errors (env : Env) (self : Config) (path name : string)
    (parts : list string) (params : option nat) (headers : option (gmap string string))
    (timeout : option Q) (s s1 : State) (r : result value) :
  (50 <= List.length parts)%nat ->
  let p := fst (working_params ∅ params s) in
  let s0 := assigned p "ids" (VStr (join "," (firstn 50 parts)))
              (snd (working_params ∅ params s)) in
  let run := get_all_id_filter self path (VStr <$> parts) name params headers timeout env s in
  get self path (Some p) headers timeout env s0 = (r, s1) ->
  (forall e, r = Raise e -> run = (Raise e, s1))
  /\ (forall v, r = Ok v -> is_dict v = false -> run = (Raise AttributeError, s1))
  /\ (forall fields, r = Ok (VDict fields) ->
        iter_items (dict_get "data" fields) = None -> run = (Raise TypeError, s1))
  /\ (forall fields, r = Ok (VDict fields) ->
        fields_get "data" fields = None -> run = (Raise TypeError, s1)).
Proof.
  intros Hlen. cbv zeta.
  rewrite id_filter_large_run by now rewrite length_fmap.
  cbv zeta. rewrite length_fmap. fold (rounds (List.length parts)).
  destruct (rounds_positive _ Hlen) as [k ->].
  rewrite chunks_round. fold (chunk 0 (VStr <$> parts)).
  rewrite chunk_fmap, as_strings_fmap. unfold chunk. rewrite Nat.mul_0_r.
  change (skipn 0 parts) with parts.
  intros ->. repeat split.
  - now intros e ->.
  - intros v -> Hv. destruct v; try reflexivity; discriminate.
  - now intros fields -> ->.
  - intros fields -> Hmiss. unfold dict_get. now rewrite Hmiss.
Qed.

(** X19. Identifiers must be strings: when one of the first 50 is not (an
    [int], say), [','.join] raises [TypeError] before anything is sent and
    before any token is asked for. *)
Theorem id_filter_rejects_non_strings (env : Env) (self : Config) (path name : string)
    (ids : list value) (params : option nat) (headers : option (gmap string string))
    (timeout : option Q) (s : State) :
  as_strings (firstn 50 ids) = None ->
  let run := get_all_id_filter self path ids name params headers timeout env s in
  fst run = Raise TypeError /\ sent (snd run) = sent s /\ exchanges (snd run) = exchanges s.
Proof.
  intros Hbad. cbv zeta.
  destruct (working_params_lookup ∅ params s) as (d & _ & Hsent).
  assert (Hex : exchanges (snd (working_params ∅ params s)) = exchanges s).
  { unfold working_params. destruct params as [r|]; [destruct (given _ _)|]; reflexivity. }
  destruct (Nat.lt_ge_cases (List.length ids) 50) as [Hlen|Hlen].
  - rewrite id_filter_small_run by exact Hlen. cbv zeta.
    rewrite take_ge in Hbad by lia. rewrite Hbad. cbn [fst snd]. now split.
  - rewrite id_filter_large_run by exact Hlen. cbv zeta.
    fold (rounds (List.length ids)).
    destruct (rounds_positive _ Hlen) as [k ->].
    rewrite chunks_round. rewrite Nat.mul_0_r. change (skipn 0 ids) with ids. rewrite Hbad.
    cbn [fst snd]. now split.
Qed.

(** ** Further sample runs *)

(** X1 at a client for production. *)
Lemma init_validates_witness :
  exists c,
    __init__ "abc123" "shhsecret" "myappkey" None (Some "123456") "Production" None None
      "Australia/Sydney" = Ok c
    /\ client_id c = "abc123" /\ client_secret c = "shhsecret" /\ app_key c = "myappkey"
    /\ tenant c = Some "123456" /\ environment c = lower "Production".
Proof.
  apply (proj1 (init_validates "abc123" "shhsecret" "myappkey" None (Some "123456")
                  "Production" None None "Australia/Sydney")).
  repeat split; try discriminate. right. reflexivity.
Defined.

(** X2 at the sample client. *)
Lemma init_endpoints_witness :
  auth_url sample_self = "https://auth-integration.servicetitan.io/connect/token"
  /\ base_url sample_self = "https://api-integration.servicetitan.io".
Proof.
  destruct (init_endpoints "abc123" "shhsecret" "myappkey" None (Some "123456")
              "Integration" None None "Australia/Sydney" sample_self eq_refl)
    as (_ & _ & _ & Ha & Hb).
  split; [apply Ha | apply Hb]; now left.
Defined.

(** X4 at an authorization server that sends an empty token. *)
Lemma refresh_rejects_falsy_token_witness :
  _refresh_access_token sample_self empty_token warm
  = (Raise (ServiceTitanAuthError "Authentication response did not contain an access_token"),
     exchanged sample_self warm).
Proof.
  apply (refresh_rejects_falsy_token empty_token sample_self warm
           (mkResponse 200 (Some "application/json; charset=utf-8") [] ""
              (Some (VDict [("access_token", VStr ""); ("expires_in", VInt 900)])))
           [("access_token", VStr ""); ("expires_in", VInt 900)]); reflexivity.
Defined.


(** X6 at a server that grants 30 seconds. *)
Lemma short_lifetime_defeats_cache_witness :
  let s' := snd (_refresh_access_token sample_self short_lived fresh) in
  exchanges (snd (_get_access_token sample_self short_lived s'))
  = (exchanges s' ++ [token_request sample_self])%list.
Proof.
  apply (short_lifetime_defeats_cache short_lived sample_self fresh
           (snd (_refresh_access_token sample_self short_lived fresh))
           (mkResponse 200 (Some "application/json; charset=utf-8") [] ""
              (Some (VDict [("access_token", VStr "tok"); ("expires_in", VInt 30)])))
           [("access_token", VStr "tok"); ("expires_in", VInt 30)] (30 # 1)%Q).
  - vm_compute. reflexivity.
  - reflexivity.
  - reflexivity.
  - vm_compute. reflexivity.
  - vm_compute. discriminate.
  - split; vm_compute; discriminate.
  - vm_compute. discriminate.
Defined.

(** X8 at a 404 received with a token that is still good. *)
Lemma request_keeps_cache_witness :
  let s' := snd (_request sample_self "GET" "tenant/jobs/7" None None None None not_found warm) in
  _access_token s' = VStr "old" /\ _token_expiry s' = (1900 # 1)%Q
  /\ exchanges s' = exchanges warm.
Proof.
  apply (request_keeps_cache not_found sample_self "GET" "tenant/jobs/7" None None None None
           warm).
  - reflexivity.
  - vm_compute. reflexivity.
Defined.

(** X9 at an API that cannot be reached. *)
Lemma request_transport_failure_witness :
  fst (_request sample_self "GET" "tenant/jobs" None None None None unreachable_api warm)
  = Raise (ServiceTitanAPIError
             "Failed to connect to https://api-integration.servicetitan.io/tenant/123456/jobs: timed out").
Proof.
  rewrite (request_transport_failure unreachable_api sample_self "GET" "tenant/jobs"
             None None None None warm (ticked warm) (VStr "old") "timed out").
  - reflexivity.
  - vm_compute. reflexivity.
  - reflexivity.
Defined.

(** X10 at the sample client. *)
Lemma verbs_on_the_wire_witness :
  let url := "https://api-integration.servicetitan.io/tenant/123456/jobs" in
  let wire (run : result value * State) :=
    (fun rq => (rq_method rq, rq_url rq, rq_json rq)) <$> sent (snd run) in
  wire (post sample_self "tenant/jobs" (Some (VDict [("name", VStr "x")])) None None None
          counting warm)
  = [("POST", url, Some (VDict [("name", VStr "x")]))]
  /\ wire (delete sample_self "tenant/jobs" None None None counting warm)
     = [("DELETE", url, None)].
Proof.
  destruct (verbs_on_the_wire counting sample_self "tenant/jobs"
              (Some (VDict [("name", VStr "x")])) None None None warm (ticked warm)
              (VStr "old")) as (_ & Hpost & _ & _ & Hdelete).
  - vm_compute. reflexivity.
  - split; [exact Hpost | exact Hdelete].
Defined.


(** X12 at the sample client. *)
Lemma prepare_url_idempotent_witness :
  _prepare_url sample_self (_prepare_url sample_self "/tenant/jobs")
  = _prepare_url sample_self "/tenant/jobs".
Proof.
  apply (prepare_url_idempotent sample_self "/tenant/jobs"). right. reflexivity.
Defined.



(** X15 at the API that always declares [hasMore]. *)
Lemma get_all_unbounded_witness :
  fst (get_all 1000 sample_self "crm/v2/tenant/customers" None None None endless fresh)
  = Ok None.
Proof.
  refine (get_all_unbounded endless sample_self "crm/v2/tenant/customers" None None None fresh
            _ 1000%nat).
  intros page s0. apply endless_get.
Defined.

(** X16 at twenty identifiers under the name [jobIds]. *)
Lemma id_filter_single_request_witness :
  let run := get_all_id_filter sample_self "jpm/v2/tenant/jobs" (VStr <$> numeral_list 1 20)
               "jobIds" None None None counting fresh in
  fst run = Ok (VList [VInt 0])
  /\ filter_of "jobIds" <$> sent (snd run) = [Some (VStr (numerals 1 20))].
Proof.
  cbv zeta.
  destruct (id_filter_single_request counting sample_self "jpm/v2/tenant/jobs" "jobIds"
              (numeral_list 1 20) None None None fresh) as [Hrun _].
  - vm_compute. lia.
  - rewrite Hrun. vm_compute. split; reflexivity.
Defined.

(** X17 at 120 identifiers. *)
Lemma id_filter_chunks_witness :
  let run := get_all_id_filter sample_self "jpm/v2/tenant/jobs" (VStr <$> numeral_list 1 120)
               "ids" None None None counting fresh in
  exists rqs,
    sent (snd run) = (sent fresh ++ rqs)%list
    /\ rq_method <$> rqs = ["GET"; "GET"; "GET"]
    /\ filter_of "ids" <$> rqs
       = [Some (VStr (numerals 1 50)); Some (VStr (numerals 51 50));
          Some (VStr (numerals 101 20))].
Proof.
  cbv zeta.
  destruct (id_filter_chunks counting sample_self "jpm/v2/tenant/jobs" "ids"
              (numeral_list 1 120) None None None fresh
              (snd (get_all_id_filter sample_self "jpm/v2/tenant/jobs"
                      (VStr <$> numeral_list 1 120) "ids" None None None counting fresh))
              (VList [VInt 0; VInt 1; VInt 2]))
    as (_ & _ & rqs & Hs & Hm & Hf).
  - vm_compute. lia.
  - vm_compute. reflexivity.
  - exists rqs. split; [exact Hs|]. split; [exact Hm|]. rewrite Hf. vm_compute. reflexivity.
Defined.

(** X18 at fifty identifiers and an API whose objects carry no [data]. *)
Lemma id_filter_first_chunk_errors_witness :
  fst (get_all_id_filter sample_self "jpm/v2/tenant/jobs" (VStr <$> numeral_list 1 50)
         "ids" None None None no_data fresh)
  = Raise TypeError.
Proof.
  destruct (id_filter_first_chunk_errors no_data sample_self "jpm/v2/tenant/jobs" "ids"
              (numeral_list 1 50) None None None fresh
              (snd (get sample_self "jpm/v2/tenant/jobs" (Some 0%nat) None None no_data
                      (assigned 0%nat "ids" (VStr (join "," (firstn 50 (numeral_list 1 50))))
                         (snd (working_params ∅ None fresh)))))
              (Ok (VDict [("hasMore", VBool false)])))
    as (_ & _ & _ & Hmissing).
  - vm_compute. lia.
  - vm_compute. reflexivity.
  - rewrite (Hmissing _ eq_refl eq_refl). reflexivity.
Defined.

(** X19 at identifiers given as numbers. *)
Lemma id_filter_rejects_non_strings_witness :
  let run := get_all_id_filter sample_self "jpm/v2/tenant/jobs" [VInt 1; VInt 2] "ids"
               None None None counting fresh in
  fst run = Raise TypeError /\ sent (snd run) = sent fresh
  /\ exchanges (snd run) = exchanges fresh.
Proof.
  apply (id_filter_rejects_non_strings counting sample_self "jpm/v2/tenant/jobs" "ids"
           [VInt 1; VInt 2] None None None fresh).
  reflexivity.
Defined.
